(** * Rice grain classifier: scripts/predict_rice_grain.py

    A shallow embedding of the command-line script and the properties its
    specification states about it.

    The script is glue around three collaborators: NumPy, the image
    library behind [keras.preprocessing.image], and the TFLite runtime.
    - The arithmetic the script itself asks for (division by 255.0,
      arg-max, max, multiplication by 100, the [.2f] format) is modelled
      on IEEE 754 values, see [float].
    - The image decoder, the resampling grid and the inference runtime
      are black boxes: they are the operations of the class [Runtime].
    - The script's control flow (existence checks, [sys.exit],
      [try]/[except], [print]) runs in the monad [Py] over a [World]. *)

From Stdlib Require Import ZArith Strings.Byte DecimalString.
From stdpp Require Import base tactics option list strings.

Local Open Scope Z_scope.

(** ** IEEE 754 values

    Every finite binary32 and binary64 number is an integer multiple of
    2^-1074, the smallest positive binary64 number. [Fin k] is the real
    number k * 2^-1074, [Fin 0] the positive zero, and [NegZero] the
    negative zero. The payload of a NaN is not represented. *)

Inductive float : Type :=
  | NaN
  | Inf (neg : bool)
  | Fin (k : Z)
  | NegZero.

Definition ulp_exp : Z := 1074.

(** The integer [n] as a float. *)
Definition float_of_Z (n : Z) : float := Fin (n * 2 ^ ulp_exp).

Definition isnan (x : float) : bool :=
  match x with NaN => true | _ => false end.

(** The value of a finite number, in units; the two zeros have the
    value 0. *)
Definition units (x : float) : Z :=
  match x with Fin k => k | _ => 0 end.

Definition iszero (x : float) : bool :=
  match x with Fin k => k =? 0 | NegZero => true | _ => false end.

(** The sign bit: [true] for the negative numbers and the negative
    zero. *)
Definition signbit (x : float) : bool :=
  match x with
  | NaN => false
  | Inf s => s
  | Fin k => k <? 0
  | NegZero => true
  end.

Definition signed_zero (neg : bool) : float :=
  if neg then NegZero else Fin 0.

(** [x <= y] of IEEE 754: false as soon as one side is NaN; the two
    zeros compare equal. *)
Definition float_le (x y : float) : bool :=
  match x, y with
  | NaN, _ | _, NaN => false
  | Inf true, _ => true
  | _, Inf false => true
  | Inf false, _ => false
  | _, Inf true => false
  | _, _ => units x <=? units y
  end.

Definition float_ge (x y : float) : bool := float_le y x.

(** Round-half-even of the quotient n / d, for d > 0. *)
Definition rne (n d : Z) : Z :=
  let q := n / d in
  let r := n mod d in
  if 2 * r <? d then q
  else if d <? 2 * r then q + 1
  else if Z.even q then q else q + 1.

(** A format: the number of significand bits, the exponent of the
    smallest positive number (2^smin units) and the exponent of the
    overflow threshold (2^ovf units). *)
Record format : Type := Format {
  prec : Z;
  smin : Z;
  ovf : Z;
}.

Definition binary32 : format := Format 24 925 1202.
Definition binary64 : format := Format 53 0 2098.

(** The exponent, in units, of the last place of a number of magnitude
    [a] (rounded down to an integer number of units). *)
Definition place (f : format) (a : Z) : Z :=
  Z.max (smin f) (Z.log2 a - (prec f - 1)).

(** Rounding to nearest, ties to even, of the rational n / d (in units of
    2^-1074, d > 0) to the format [f], overflow apart. *)
Definition round_fin (f : format) (n d : Z) : Z :=
  let s := place f (Z.abs n / d) in
  Z.sgn n * (rne (Z.abs n) (d * 2 ^ s) * 2 ^ s).

(** The rounded result: [neg] is the sign of the exact result, which an
    overflow and a zero keep. *)
Definition round (f : format) (neg : bool) (n d : Z) : float :=
  let k := round_fin f n d in
  if 2 ^ ovf f <=? Z.abs k then Inf neg
  else if k =? 0 then signed_zero neg
  else Fin k.

(** Membership of a value in a format. *)
Definition in_format (f : format) (x : float) : bool :=
  match x with
  | NaN | Inf _ | NegZero => true
  | Fin k =>
      let a := Z.abs k in
      (a mod 2 ^ place f a =? 0) && (a <? 2 ^ ovf f)
  end.

(** Division and multiplication of IEEE 754, rounded to the format [f].
    The sign of the result is the exclusive or of the signs of the
    operands. *)
Definition float_div (f : format) (x y : float) : float :=
  match x, y with
  | NaN, _ | _, NaN => NaN
  | Inf _, Inf _ => NaN
  | Inf s, _ => Inf (xorb s (signbit y))
  | _, Inf t => signed_zero (xorb (signbit x) t)
  | _, _ =>
      if units y =? 0
      then (if units x =? 0 then NaN else Inf (xorb (signbit x) (signbit y)))
      else round f (xorb (signbit x) (signbit y))
             (Z.sgn (units y) * units x * 2 ^ ulp_exp) (Z.abs (units y))
  end.

Definition float_mul (f : format) (x y : float) : float :=
  match x, y with
  | NaN, _ | _, NaN => NaN
  | Inf s, Inf t => Inf (xorb s t)
  | Inf s, _ => if units y =? 0 then NaN else Inf (xorb s (signbit y))
  | _, Inf t => if units x =? 0 then NaN else Inf (xorb (signbit x) t)
  | _, _ =>
      round f (xorb (signbit x) (signbit y)) (units x * units y) (2 ^ ulp_exp)
  end.

(** The value of a pixel channel, 0 .. 255, as a float. *)
Definition float_of_byte (b : byte) : float :=
  float_of_Z (Z.of_N (Byte.to_N b)).

(** Conversion to a format ([astype]): exact on the members of the
    format, rounding otherwise. *)
Definition cast (f : format) (x : float) : float :=
  match x with
  | Fin k => round f (k <? 0) k 1
  | _ => x
  end.

(** ** Exceptions and results *)

(** A Python exception: its class name and [str(e)]. Every exception of
    this model is a subclass of [Exception]; [SystemExit], which is not,
    is the separate completion [SysExit] below. *)
Record exn : Type := Exn {
  exn_class : string;
  exn_msg : string;
}.

Inductive result (A : Type) : Type :=
  | Ok (a : A)
  | Raise (e : exn).
Arguments Ok {A} a.
Arguments Raise {A} e.

Definition IndexError_list : exn := Exn "IndexError" "list index out of range".

(** [l[i]] on a Python list, for i >= 0. *)
Definition getitem {A : Type} (l : list A) (i : nat) : result A :=
  match l !! i with
  | Some x => Ok x
  | None => Raise IndexError_list
  end.

(** ** Text *)

Definition nl : string := String (Ascii.ascii_of_nat 10) "".

(** [s * n]. *)
Fixpoint str_mul (s : string) (n : nat) : string :=
  match n with
  | O => ""
  | S n' => s +:+ str_mul s n'
  end.

Definition str_of_Z (n : Z) : string :=
  NilZero.string_of_uint (N.to_uint (Z.to_N n)).

(** A number of hundredths, n >= 0, in fixed point with two decimals. *)
Definition two_decimals (n : Z) : string :=
  str_of_Z (n / 100) +:+ "." +:+ str_of_Z (n mod 100 / 10) +:+ str_of_Z (n mod 10).

(** [format(x, ".2f")]: the sign, which a zero and a number that rounds
    to zero keep, and the exact magnitude of the float, rounded
    half-even to two decimals. *)
Definition format_2f (x : float) : string :=
  match x with
  | NaN => "nan"
  | Inf false => "inf"
  | Inf true => "-inf"
  | Fin k =>
      (if k <? 0 then "-" else "") +:+
      two_decimals (rne (Z.abs k * 100) (2 ^ ulp_exp))
  | NegZero => "-0.00"
  end.

(** ** NumPy *)

Abbreviation array1 := (list float).
Abbreviation array2 := (list (list float)).
Abbreviation array3 := (list (list (list float))).
Abbreviation array4 := (list (list (list (list float)))).

(** How [np.float32 * 100] is typed: NumPy 1.x promotes the Python int to
    int64 and computes in binary64; from NumPy 2 (NEP 50) the Python int
    is weak and the product stays in binary32. *)
Inductive promotion : Type := legacy | nep50.

Module np.

(** The scan of [np.argmax] on a float vector: [mp] is the running
    maximum (never NaN), [max_ind] its position, [i] the position of
    the head of [ip]. A NaN ends the scan and wins. *)
Fixpoint argmax_scan (ip : array1) (i : nat) (mp : float) (max_ind : nat) : nat :=
  match ip with
  | [] => max_ind
  | x :: ip' =>
      if float_le x mp then argmax_scan ip' (S i) mp max_ind
      else if isnan x then i
      else argmax_scan ip' (S i) x i
  end.

Definition argmax (a : array1) : result nat :=
  match a with
  | [] => Raise (Exn "ValueError" "attempt to get argmax of an empty sequence")
  | x :: a' => Ok (if isnan x then 0%nat else argmax_scan a' 1 x 0)
  end.

(** [np.maximum], which propagates NaN. *)
Definition maximum (in1 in2 : float) : float :=
  if float_ge in1 in2 || isnan in1 then in1 else in2.

(** [np.max] of a vector: [np.maximum.reduce], accumulated from the
    left as the scalar loop does. *)
Definition max (a : array1) : result float :=
  match a with
  | [] => Raise (Exn "ValueError"
            "zero-size array to reduction operation maximum which has no identity")
  | x :: a' => Ok (foldl maximum x a')
  end.

(** [a[i]] along axis 0, for i >= 0. *)
Definition getitem {A : Type} (a : list A) (i : nat) : result A :=
  match a !! i with
  | Some x => Ok x
  | None =>
      Raise (Exn "IndexError"
               ("index " +:+ str_of_Z (Z.of_nat i) +:+
                " is out of bounds for axis 0 with size " +:+
                str_of_Z (Z.of_nat (length a))))
  end.

(** [a / s] for a float32 array of rank 3 and a Python float. *)
Definition true_divide (a : array3) (s : float) : array3 :=
  fmap (M:=list) (fmap (M:=list) (fmap (M:=list) (λ x, float_div binary32 x s))) a.

(** [np.expand_dims(a, axis=0)]. *)
Definition expand_dims (a : array3) : array4 := [a].

(** [a.astype(np.float32)]. *)
Definition astype_float32 (a : array4) : array4 :=
  fmap (M:=list) (fmap (M:=list) (fmap (M:=list) (fmap (M:=list) (cast binary32)))) a.

(** [a.shape == (n0, n1, n2, n3)]. *)
Definition has_shape (a : array4) (n0 n1 n2 n3 : nat) : Prop :=
  length a = n0 ∧
  Forall (λ a1 : array3, length a1 = n1 ∧
    Forall (λ a2 : array2, length a2 = n2 ∧
      Forall (λ a3 : array1, length a3 = n3) a2) a1) a.

(** [a[i, j, k, l]], when the position exists. *)
Definition item (a : array4) (i j k l : nat) : option float :=
  match a !! i with
  | Some a3 =>
      match a3 !! j with
      | Some a2 =>
          match a2 !! k with
          | Some a1 => a1 !! l
          | None => None
          end
      | None => None
      end
  | None => None
  end.

(** The scalars of a rank 4 array, in memory order. *)
Definition ravel (a : array4) : list float := concat (concat (concat a)).

(** [x * n] for a float32 scalar and a Python int, as a Python float. *)
Definition scalar_mul (p : promotion) (x : float) (n : Z) : float :=
  match p with
  | legacy => float_mul binary64 x (float_of_Z n)
  | nep50 => float_mul binary32 x (float_of_Z n)
  end.

End np.

(** The order in which NumPy reduces: IEEE 754 [<=], with NaN above
    everything. *)
Definition np_le (x y : float) : bool := isnan y || float_le x y.

(** ** The collaborators *)

(** A decoded image in RGB mode: its size and its pixels, [getpixel x y]
    for 0 <= x < width and 0 <= y < height. *)
Record Image : Type := {
  im_width : nat;
  im_height : nat;
  getpixel : nat → nat → byte * byte * byte;
}.

(** An entry of [get_input_details()] or [get_output_details()]. *)
Record tensor_details : Type := {
  index : nat;
  shape : list nat;
}.

(** What the script needs from the inference runtime, the image library
    and NumPy's version. [Interpreter] is the state of an interpreter
    object; an operation that changes the object returns its new state.
    Output tensors are of rank 2 (batch, scores). *)
Class Runtime : Type := {
  Interpreter : Type;
  (** [tf.lite.Interpreter(model_path=...)], from the bytes of the file *)
  tflite_Interpreter : list byte → result Interpreter;
  (** the exception of the constructor for a path that the runtime
      cannot read as a file *)
  tflite_cannot_open : string → exn;
  tflite_allocate_tensors : Interpreter → result Interpreter;
  tflite_get_input_details : Interpreter → list tensor_details;
  tflite_get_output_details : Interpreter → list tensor_details;
  tflite_set_tensor : Interpreter → nat → array4 → result Interpreter;
  tflite_invoke : Interpreter → result Interpreter;
  tflite_get_tensor : Interpreter → nat → result array2;
  (** decoding of an image file, converted to RGB *)
  pil_open : list byte → result Image;
  (** nearest-neighbour resampling: [pil_nearest s d i] is the source
      coordinate, on an axis of extent [s], of the target coordinate [i]
      on an axis of extent [d] *)
  pil_nearest : nat → nat → nat → nat;
  np_promotion : promotion;
}.

(** ** The world of one process *)

Inductive node : Type :=
  | File (content : list byte)
  | Dir.

(** What the process asked of the file system, in order. *)
Inductive event : Type :=
  | Stat (path : string)
  | Open (path : string).

(** A reference to an interpreter object: its position in the heap. *)
Definition handle : Type := nat.

Record World `{Runtime} : Type := {
  fs : string → option node;
  stdout : string;
  stderr : string;
  trace : list event;
  heap : list Interpreter;
}.

Inductive completion (A : Type) : Type :=
  | Normal (a : A)
  | Abrupt (e : exn)
  | SysExit (status : Z).
Arguments Normal {A} a.
Arguments Abrupt {A} e.
Arguments SysExit {A} status.

Section Program.
Context `{RT : Runtime}.

Definition Py (A : Type) : Type := World → World * completion A.

#[export] Instance Py_ret : MRet Py := λ A a w, (w, Normal a).

#[export] Instance Py_bind : MBind Py := λ A B k m w,
  match m w with
  | (w', Normal a) => k a w'
  | (w', Abrupt e) => (w', Abrupt e)
  | (w', SysExit n) => (w', SysExit n)
  end.

Definition raise {A : Type} (e : exn) : Py A := λ w, (w, Abrupt e).

Definition lift {A : Type} (r : result A) : Py A :=
  match r with
  | Ok a => mret a
  | Raise e => raise e
  end.

(** [try: body except Exception as e: handler(e)] *)
Definition try_except {A : Type} (body : Py A) (handler : exn → Py A) : Py A := λ w,
  match body w with
  | (w', Abrupt e) => handler e w'
  | r => r
  end.

Definition log (ev : event) (w : World) : World :=
  {| fs := fs w; stdout := stdout w; stderr := stderr w;
     trace := trace w ++ [ev]; heap := heap w |}.

Definition set_heap (h : list Interpreter) (w : World) : World :=
  {| fs := fs w; stdout := stdout w; stderr := stderr w;
     trace := trace w; heap := h |}.

Definition put_stdout (s : string) (w : World) : World :=
  {| fs := fs w; stdout := s; stderr := stderr w;
     trace := trace w; heap := heap w |}.

Definition put_stderr (s : string) (w : World) : World :=
  {| fs := fs w; stdout := stdout w; stderr := s;
     trace := trace w; heap := heap w |}.

(** [print(s)] *)
Definition print (s : string) : Py unit := λ w,
  (put_stdout (stdout w +:+ s +:+ nl) w, Normal ()).

(** [print(s, file=sys.stderr)] *)
Definition print_stderr (s : string) : Py unit := λ w,
  (put_stderr (stderr w +:+ s +:+ nl) w, Normal ()).

(** [sys.exit(status)] *)
Definition sys_exit {A : Type} (status : Z) : Py A := λ w, (w, SysExit status).

(** [os.path.exists(path)] *)
Definition os_path_exists (path : string) : Py bool := λ w,
  (log (Stat path) w, Normal (bool_decide (is_Some (fs w path)))).

(** Python's [open(path, "rb")] and [read()] (POSIX). *)
Definition read_file (path : string) : Py (list byte) := λ w,
  (log (Open path) w,
   match fs w path with
   | Some (File content) => Normal content
   | Some Dir =>
       Abrupt (Exn "IsADirectoryError" ("[Errno 21] Is a directory: '" +:+ path +:+ "'"))
   | None =>
       Abrupt (Exn "FileNotFoundError"
                 ("[Errno 2] No such file or directory: '" +:+ path +:+ "'"))
   end).

(** The runtime opens the model file itself, not through Python. *)
Definition open_model (path : string) : Py (list byte) := λ w,
  (log (Open path) w,
   match fs w path with
   | Some (File content) => Normal content
   | _ => Abrupt (tflite_cannot_open path)
   end).

(** A new object on the heap. *)
Definition new (o : Interpreter) : Py handle := λ w,
  (set_heap (heap w ++ [o]) w, Normal (length (heap w))).

(** A method call that reads the object. *)
Definition get {A : Type} (h : handle) (f : Interpreter → A) : Py A := λ w,
  match heap w !! h with
  | Some o => (w, Normal (f o))
  | None => (w, Abrupt (Exn "ReferenceError" "no such object"))
  end.

(** A method call that changes the object. *)
Definition update (h : handle) (f : Interpreter → result Interpreter) : Py unit := λ w,
  match heap w !! h with
  | Some o =>
      match f o with
      | Ok o' => (set_heap (<[h:=o']> (heap w)) w, Normal ())
      | Raise e => (w, Abrupt e)
      end
  | None => (w, Abrupt (Exn "ReferenceError" "no such object"))
  end.

(** *** keras.preprocessing.image *)

(** [img.resize((width, height), NEAREST)] *)
Definition resize (img : Image) (width height : nat) : Image :=
  {| im_width := width;
     im_height := height;
     getpixel := λ x y,
       getpixel img (pil_nearest (im_width img) width x)
                    (pil_nearest (im_height img) height y) |}.

(** The image itself when it has the target size, resized otherwise. *)
Definition fit (img : Image) (target_size : nat * nat) : Image :=
  let '(height, width) := target_size in
  if bool_decide ((im_width img, im_height img) = (width, height))
  then img
  else resize img width height.

(** [image.load_img(path, target_size=(height, width))]: the file is
    decoded in RGB mode and fitted to the target size. *)
Definition load_img (path : string) (target_size : nat * nat) : Py Image :=
  content ← read_file path;
  img ← lift (pil_open content);
  mret (fit img target_size).

(** [image.img_to_array(img)]: rows, columns, channels, as float32. *)
Definition img_to_array (img : Image) : array3 :=
  (λ y, (λ x, let '(r, g, b) := getpixel img x y in
              [float_of_byte r; float_of_byte g; float_of_byte b])
        <$> seq 0 (im_width img))
  <$> seq 0 (im_height img).

(** *** The script *)

(** load_interpreter loads a TFLite interpreter from a model file *)
Definition load_interpreter (model_path : string) : Py handle :=
  content ← open_model model_path;
  o ← lift (tflite_Interpreter content);
  interpreter ← new o;
  update interpreter tflite_allocate_tensors;;
  mret interpreter.

(** tflite_fp32_predict performs inference using a TFLite interpreter *)
Definition tflite_fp32_predict (interpreter : handle) (image : array4) : Py (nat * float) :=
  input_details ← get interpreter tflite_get_input_details;
  output_details ← get interpreter tflite_get_output_details;
  d_in ← lift (getitem input_details 0);
  update interpreter (λ o, tflite_set_tensor o (index d_in) image);;
  update interpreter tflite_invoke;;
  d_out ← lift (getitem output_details 0);
  o ← get interpreter id;
  output ← lift (tflite_get_tensor o (index d_out));
  scores ← lift (np.getitem output 0);
  pred ← lift (np.argmax scores);
  scores' ← lift (np.getitem output 0);
  confidence ← lift (np.max scores');
  mret (pred, confidence).

Definition default_target_size : nat * nat := (128%nat, 128%nat).

(** load_single_image loads a single image and preprocesses it *)
Definition load_single_image (img_path : string) (target_size : nat * nat) : Py array4 :=
  img ← load_img img_path target_size;
  let img_array := img_to_array img in
  let img_array := np.true_divide img_array (float_of_Z 255) in
  let img_array := np.astype_float32 (np.expand_dims img_array) in
  mret img_array.

(** The parsed command line, [args.model] and [args.image]. The parser
    itself is not part of the model: a run starts from its result. *)
Record Namespace : Type := {
  model : string;
  image : string;
}.

Definition default_model : string := "../models/tflite/rice_classifier.tflite".

Definition classes : list string :=
  ["Karacadag"; "Ipsala"; "Arborio"; "Basmati"; "Jasmine"].

(** The body of the [try] statement. *)
Definition classify (TFLITE_FP32_PATH Image_PATH : string) : Py unit :=
  tflite_fp32 ← load_interpreter TFLITE_FP32_PATH;
  img ← load_single_image Image_PATH default_target_size;
  '(pred, confidence) ← tflite_fp32_predict tflite_fp32 img;
  print (nl +:+ str_mul "=" 60);;
  print "RICE GRAIN CLASSIFICATION RESULTS";;
  print (str_mul "=" 60);;
  print ("Image: " +:+ Image_PATH);;
  print (str_mul "-" 60);;
  name ← lift (getitem classes pred);
  print ("Prediction: " +:+ name +:+ " (" +:+
         format_2f (np.scalar_mul np_promotion confidence 100) +:+ "% confidence)");;
  print (str_mul "=" 60).

Definition __main__ (args : Namespace) : Py unit :=
  let TFLITE_FP32_PATH := model args in
  let Image_PATH := image args in
  model_exists ← os_path_exists TFLITE_FP32_PATH;
  (if negb model_exists
   then print ("Model not found: " +:+ TFLITE_FP32_PATH);; sys_exit 1
   else mret ());;
  image_exists ← os_path_exists Image_PATH;
  (if negb image_exists
   then print ("Image not found: " +:+ Image_PATH);; sys_exit 1
   else mret ());;
  try_except
    (classify TFLITE_FP32_PATH Image_PATH)
    (λ e, print_stderr ("Error: " +:+ exn_msg e);; sys_exit 1).

(** *** The process *)

(** What a run leaves behind. *)
Record Outcome : Type := {
  out : string;
  err : string;
  status : Z;
  calls : list event;
}.

Definition boot (files : string → option node) : World :=
  {| fs := files; stdout := ""; stderr := ""; trace := []; heap := [] |}.

(** [python predict_rice_grain.py ...] on the file system [files]: an
    exception that reaches the top is printed with its traceback on
    standard error and gives the exit status 1. *)
Definition run (files : string → option node) (args : Namespace) : Outcome :=
  match __main__ args (boot files) with
  | (w, Normal _) =>
      {| out := stdout w; err := stderr w; status := 0; calls := trace w |}
  | (w, SysExit n) =>
      {| out := stdout w; err := stderr w; status := n; calls := trace w |}
  | (w, Abrupt e) =>
      {| out := stdout w;
         err := stderr w +:+ "Traceback (most recent call last):" +:+ nl
                +:+ exn_class e +:+ ": " +:+ exn_msg e +:+ nl;
         status := 1; calls := trace w |}
  end.

End Program.

(** ** Vocabulary of the specification *)

(** [v] is the greatest score of [a] in NumPy's order and [i] is the
    first position that holds a greatest score. *)
Definition first_max (a : array1) (i : nat) (v : float) : Prop :=
  a !! i = Some v ∧
  (∀ x, x ∈ a → np_le x v = true) ∧
  (∀ j x, a !! j = Some x → np_le v x = true → (i ≤ j)%nat).

(** 0 <= x <= 1 *)
Definition in_unit_interval (x : float) : Prop :=
  float_le (float_of_Z 0) x = true ∧ float_le x (float_of_Z 1) = true.

(** Channel [c] of a pixel: 0 red, 1 green, 2 blue. *)
Definition channel (c : nat) (p : byte * byte * byte) : option byte :=
  let '(r, g, b) := p in [r; g; b] !! c.

(** The value of a channel after preprocessing. *)
Definition scaled (b : byte) : float :=
  float_div binary32 (float_of_byte b) (float_of_Z 255).

(** The three channels of a pixel after preprocessing. *)
Definition scaled_pixel (p : byte * byte * byte) : array1 :=
  let '(r, g, b) := p in [scaled r; scaled g; scaled b].

(** The text of a successful run. *)
Definition report (Image_PATH name percent : string) : string :=
  nl +:+ str_mul "=" 60 +:+ nl +:+
  "RICE GRAIN CLASSIFICATION RESULTS" +:+ nl +:+
  str_mul "=" 60 +:+ nl +:+
  "Image: " +:+ Image_PATH +:+ nl +:+
  str_mul "-" 60 +:+ nl +:+
  "Prediction: " +:+ name +:+ " (" +:+ percent +:+ "% confidence)" +:+ nl +:+
  str_mul "=" 60 +:+ nl.

(** Does [text] start with a whole part between 0 and 100 and the
    decimal point? *)
Definition whole_part_in_range (text : string) : bool :=
  existsb (λ q, String.prefix (str_of_Z (Z.of_nat q) +:+ ".") text) (seq 0 101).

Section Vocabulary.
Context `{RT : Runtime}.

(** The resampling grid stays inside the source image. *)
Definition nearest_in_range : Prop :=
  ∀ s d i : nat, (0 < s)%nat → (i < d)%nat → (pil_nearest s d i < s)%nat.

(** Every pixel of the image has the value [V] in every channel. *)
Definition solid (img : Image) (V : byte) : Prop :=
  ∀ x y : nat, (x < im_width img)%nat → (y < im_height img)%nat →
    getpixel img x y = (V, V, V).

(** The tensor [load_single_image] builds from a decoded image. *)
Definition tensor_of (img : Image) (target_size : nat * nat) : array4 :=
  np.astype_float32
    (np.expand_dims
       (np.true_divide (img_to_array (fit img target_size)) (float_of_Z 255))).

(** The model and the image are valid: the runtime loads the model, the
    image decodes, and the forward pass on the preprocessed image
    leaves [scores] as the first row of the output tensor. *)
Inductive inference (files : string → option node) (args : Namespace)
    (scores : array1) : Prop :=
  | inference_intro (model_content image_content : list byte)
      (o0 o o1 o2 : Interpreter) (img : Image)
      (d_in d_out : tensor_details) (rest : array2)
      (Hmodel : files (model args) = Some (File model_content))
      (Himage : files (image args) = Some (File image_content))
      (Hload : tflite_Interpreter model_content = Ok o0)
      (Halloc : tflite_allocate_tensors o0 = Ok o)
      (Hdecode : pil_open image_content = Ok img)
      (Hin : tflite_get_input_details o !! 0%nat = Some d_in)
      (Hout : tflite_get_output_details o !! 0%nat = Some d_out)
      (Hset : tflite_set_tensor o (index d_in)
                (tensor_of img default_target_size) = Ok o1)
      (Hinvoke : tflite_invoke o1 = Ok o2)
      (Hget : tflite_get_tensor o2 (index d_out) = Ok (scores :: rest)).

(** The world in which the [try] statement starts. *)
Definition checked (files : string → option node) (args : Namespace) : World :=
  log (Stat (image args)) (log (Stat (model args)) (boot files)).

(** A computation that does not exit, leaves standard error alone and
    only adds to the trace. *)
Definition quiet {A : Type} (m : Py A) : Prop :=
  ∀ w w' c, m w = (w', c) →
    stderr w' = stderr w ∧ trace w `prefix_of` trace w' ∧ ∀ n, c ≠ SysExit n.

(** Two worlds that differ at most in the files the run never names. *)
Definition agree (args : Namespace) (w1 w2 : World) : Prop :=
  fs w1 (model args) = fs w2 (model args) ∧
  fs w1 (image args) = fs w2 (image args) ∧
  stdout w1 = stdout w2 ∧ stderr w1 = stderr w2 ∧
  trace w1 = trace w2 ∧ heap w1 = heap w2.

(** A computation that cannot tell such worlds apart. *)
Definition blind {A : Type} (args : Namespace) (m : Py A) : Prop :=
  ∀ w1 w2, agree args w1 w2 →
    agree args (m w1).1 (m w2).1 ∧ (m w1).2 = (m w2).2.

End Vocabulary.

(** ** A small runtime

    A concrete runtime on which the script runs by computation.
    - A model file is one byte [e] followed by one byte per class: the
      network ignores its input and scores class i with b_i / 2^e.
    - An image file is a width byte, a height byte, and the pixels in row
      order, three bytes each.
    - The resampling grid takes the source pixel under the centre of the
      target pixel. *)
Module Demo.

Record interp : Type := {
  scores_of : array1;
  input_slot : option array4;
  output_slot : option array2;
}.

Definition parse_model (content : list byte) : result interp :=
  match content with
  | [] => Raise (Exn "ValueError" "Model provided has no identifier")
  | e :: bs =>
      Ok {| scores_of :=
              (λ b, Fin (Z.of_N (Byte.to_N b) * 2 ^ (ulp_exp - Z.of_N (Byte.to_N e))))
              <$> bs;
            input_slot := None;
            output_slot := None |}
  end.

Definition cannot_open (path : string) : exn :=
  Exn "ValueError" ("Could not open '" +:+ path +:+ "'.").

Definition input_details (o : interp) : list tensor_details :=
  [{| index := 0; shape := [1; 128; 128; 3]%nat |}].

Definition output_details (o : interp) : list tensor_details :=
  [{| index := 1; shape := [1%nat; length (scores_of o)] |}].

(** The extents of a rank 4 array along its first entries. *)
Definition dims (a : array4) : list nat :=
  let a1 := default [] (head a) in
  let a2 := default [] (head a1) in
  let a3 := default [] (head a2) in
  [length a; length a1; length a2; length a3].

Definition set_tensor (o : interp) (i : nat) (a : array4) : result interp :=
  if bool_decide (i = 0%nat ∧ dims a = [1; 128; 128; 3]%nat)
  then Ok {| scores_of := scores_of o; input_slot := Some a;
             output_slot := output_slot o |}
  else Raise (Exn "ValueError" "Cannot set tensor: Dimension mismatch.").

Definition invoke (o : interp) : result interp :=
  match input_slot o with
  | Some _ => Ok {| scores_of := scores_of o; input_slot := input_slot o;
                    output_slot := Some [scores_of o] |}
  | None => Raise (Exn "RuntimeError" "Input tensor is not set.")
  end.

Definition get_tensor (o : interp) (i : nat) : result array2 :=
  match output_slot o with
  | Some a => if bool_decide (i = 1%nat) then Ok a
              else Raise (Exn "ValueError" "Invalid tensor index.")
  | None => Raise (Exn "ValueError" "Tensor data is null.")
  end.

Definition pixel_at (pixels : list byte) (k : nat) : byte * byte * byte :=
  (default x00 (pixels !! (3 * k)%nat),
   default x00 (pixels !! (3 * k + 1)%nat),
   default x00 (pixels !! (3 * k + 2)%nat)).

Definition decode (content : list byte) : result Image :=
  match content with
  | w :: h :: pixels =>
      let width := N.to_nat (Byte.to_N w) in
      let height := N.to_nat (Byte.to_N h) in
      if bool_decide ((0 < width)%nat ∧ (0 < height)%nat ∧
                      length pixels = (3 * width * height)%nat)
      then Ok {| im_width := width; im_height := height;
                 getpixel := λ x y, pixel_at pixels (y * width + x) |}
      else Raise (Exn "UnidentifiedImageError" "cannot identify image file")
  | _ => Raise (Exn "UnidentifiedImageError" "cannot identify image file")
  end.

Definition nearest (s d i : nat) : nat := ((2 * i + 1) * s / (2 * d))%nat.

Definition runtime (p : promotion) : Runtime := {|
  Interpreter := interp;
  tflite_Interpreter := parse_model;
  tflite_cannot_open := cannot_open;
  tflite_allocate_tensors := Ok;
  tflite_get_input_details := input_details;
  tflite_get_output_details := output_details;
  tflite_set_tensor := set_tensor;
  tflite_invoke := invoke;
  tflite_get_tensor := get_tensor;
  pil_open := decode;
  pil_nearest := nearest;
  np_promotion := p;
|}.

(** A directory with four files:
    - a model whose scores are 1/8, 1/16, 7/8, 0, 0;
    - a model whose scores are 0, 0, 0, 5, 0;
    - an empty file;
    - a 2 x 2 image, every channel of every pixel 128. *)
Definition files (path : string) : option node :=
  if String.eqb path "rice.tflite"
  then Some (File [x04; x02; x01; x0e; x00; x00])
  else if String.eqb path "logits.tflite"
  then Some (File [x00; x00; x00; x00; x05; x00])
  else if String.eqb path "empty.tflite"
  then Some (File [])
  else if String.eqb path "grey.png"
  then Some (File ([x02; x02] ++ replicate 12 x80))
  else None.

(** The same directory with one more file in it. *)
Definition more_files (path : string) : option node :=
  if String.eqb path "notes.txt" then Some (File [x2a]) else files path.

Definition args (model_path image_path : string) : Namespace :=
  {| model := model_path; image := image_path |}.

(** The scores of the second model. *)
Definition logits : array1 :=
  [Fin 0; Fin 0; Fin 0; float_of_Z 5; Fin 0].

(** The interpreter of the first model, and a process that holds it. *)
Definition rice : interp :=
  {| scores_of := [Fin (2 ^ 1071); Fin (2 ^ 1070); Fin (7 * 2 ^ 1071); Fin 0; Fin 0];
     input_slot := None;
     output_slot := None |}.

Definition loaded (p : promotion) : @World (runtime p) :=
  {| fs := files; stdout := ""; stderr := ""; trace := [];
     heap := [rice : @Interpreter (runtime p)] |}.

(** The decoded image file. *)
Definition grey : Image :=
  {| im_width := 2; im_height := 2;
     getpixel := λ x y, pixel_at (replicate 12 x80) (y * 2 + x) |}.

(** A black tensor of the shape the models expect. *)
Definition black : array4 :=
  [replicate 128 (replicate 128 (replicate 3 (Fin 0)))].

End Demo.

(** ** More vocabulary *)

(** The intensity of a channel, 0 .. 255. *)
Definition intensity (b : byte) : Z := Z.of_N (Byte.to_N b).

(** [round(v * 255)]: the intensity a preprocessed value stands for. *)
Definition unscale (v : float) : option Z :=
  match v with
  | Fin k => Some (rne (k * 255) (2 ^ ulp_exp))
  | NegZero => Some 0
  | _ => None
  end.

(** The first five lines of the report. *)
Definition header (Image_PATH : string) : string :=
  nl +:+ str_mul "=" 60 +:+ nl +:+
  "RICE GRAIN CLASSIFICATION RESULTS" +:+ nl +:+
  str_mul "=" 60 +:+ nl +:+
  "Image: " +:+ Image_PATH +:+ nl +:+
  str_mul "-" 60 +:+ nl.

Section MoreVocabulary.
Context `{RT : Runtime}.

(** A computation that works on the object behind [h] and on nothing
    else: no output, no file-system call, no exit, the other objects
    left as they are. *)
Definition confined {A : Type} (h : handle) (m : Py A) : Prop :=
  ∀ w w' c, m w = (w', c) →
    fs w' = fs w ∧ stdout w' = stdout w ∧ stderr w' = stderr w ∧
    trace w' = trace w ∧
    length (heap w') = length (heap w) ∧
    (∀ h', h' ≠ h → heap w' !! h' = heap w !! h') ∧
    ∀ n, c ≠ SysExit n.

End MoreVocabulary.

(** ** More samples

    The small runtime with a model format that can hold a score that is
    not a number and the negative zero: the byte 255 stands for NaN and
    the byte 254 for -0.0. *)
Module Edge.

Definition score (e b : byte) : float :=
  if Byte.eqb b xff then NaN
  else if Byte.eqb b xfe then NegZero
  else Fin (Z.of_N (Byte.to_N b) * 2 ^ (ulp_exp - Z.of_N (Byte.to_N e))).

Definition parse_model (content : list byte) : result Demo.interp :=
  match content with
  | [] => Raise (Exn "ValueError" "Model provided has no identifier")
  | e :: bs =>
      Ok {| Demo.scores_of := score e <$> bs;
            Demo.input_slot := None;
            Demo.output_slot := None |}
  end.

Definition runtime (p : promotion) : Runtime := {|
  Interpreter := Demo.interp;
  tflite_Interpreter := parse_model;
  tflite_cannot_open := Demo.cannot_open;
  tflite_allocate_tensors := Ok;
  tflite_get_input_details := Demo.input_details;
  tflite_get_output_details := Demo.output_details;
  tflite_set_tensor := Demo.set_tensor;
  tflite_invoke := Demo.invoke;
  tflite_get_tensor := Demo.get_tensor;
  pil_open := Demo.decode;
  pil_nearest := Demo.nearest;
  np_promotion := p;
|}.

(** The directory of [Demo.files] with four more models and a
    subdirectory:
    - a model of six classes whose scores are 0, 0, 0, 0, 0, 1;
    - a model whose scores are 1, NaN, 2, NaN, 0;
    - a model whose five scores are -0.0;
    - a model without classes;
    - the directory [photos]. *)
Definition files (path : string) : option node :=
  if String.eqb path "six.tflite"
  then Some (File [x00; x00; x00; x00; x00; x00; x01])
  else if String.eqb path "nan.tflite"
  then Some (File [x00; x01; xff; x02; xff; x00])
  else if String.eqb path "zero.tflite"
  then Some (File [x00; xfe; xfe; xfe; xfe; xfe])
  else if String.eqb path "bare.tflite"
  then Some (File [x00])
  else if String.eqb path "photos"
  then Some Dir
  else Demo.files path.

(** The scores of the first three models. *)
Definition six : array1 := [Fin 0; Fin 0; Fin 0; Fin 0; Fin 0; float_of_Z 1].

Definition nans : array1 := [float_of_Z 1; NaN; float_of_Z 2; NaN; Fin 0].

Definition zeros : array1 := [NegZero; NegZero; NegZero; NegZero; NegZero].

(** The interpreter of the fourth model, and a process that holds it. *)
Definition bare : Demo.interp :=
  {| Demo.scores_of := []; Demo.input_slot := None; Demo.output_slot := None |}.

Definition loaded (p : promotion) : @World (runtime p) :=
  {| fs := files; stdout := ""; stderr := ""; trace := [];
     heap := [bare : @Interpreter (runtime p)] |}.

(** A tensor of the wrong shape. *)
Definition flat : array4 := [[[[Fin 0]]]].

(** A row in which the greatest score occurs three times, the
    interpreter of such a model, and a process that holds it. *)
Definition ties : array1 :=
  [Fin 0; float_of_Z 5; float_of_Z 5; Fin 0; float_of_Z 5].

Definition tied : Demo.interp :=
  {| Demo.scores_of := ties; Demo.input_slot := None; Demo.output_slot := None |}.

Definition tied_loaded (p : promotion) : @World (runtime p) :=
  {| fs := files; stdout := ""; stderr := ""; trace := [];
     heap := [tied : @Interpreter (runtime p)] |}.

End Edge.

(** * Properties *)

(** ** The order on scores *)

Ltac float_cases :=
  repeat match goal with
         | x : float |- _ => destruct x as [|[|]|?|]
         end;
  simpl in *; try done; try lia.

Lemma float_le_refl x : isnan x = false → float_le x x = true.
Proof. unfold float_le. float_cases. Qed.

Lemma float_le_trans x y z :
  float_le x y = true → float_le y z = true → float_le x z = true.
Proof. unfold float_le. float_cases. Qed.

Lemma float_le_total x y :
  isnan x = false → isnan y = false → float_le x y = false → float_le y x = true.
Proof. unfold float_le. float_cases. Qed.

(** Two numbers that compare equal are the same number, or two zeros. *)
Lemma float_le_antisym x y :
  float_le x y = true → float_le y x = true →
  x = y ∨ (iszero x = true ∧ iszero y = true).
Proof.
  unfold float_le.
  float_cases; intros;
    first [ by left
          | left; f_equal; lia
          | right; split; first [done | lia] ].
Qed.

Lemma float_le_nan_r x : float_le x NaN = false.
Proof. by destruct x as [|[|]|?|]. Qed.

Lemma np_le_refl x : np_le x x = true.
Proof. unfold np_le, float_le. float_cases. Qed.

Lemma np_le_trans x y z :
  np_le x y = true → np_le y z = true → np_le x z = true.
Proof. unfold np_le, float_le. float_cases. Qed.

Lemma np_le_total x y : np_le x y = true ∨ np_le y x = true.
Proof. unfold np_le, float_le. float_cases; auto; lia. Qed.

(** Without NaN the two orders are one. *)
Lemma np_le_float_le x y : isnan y = false → np_le x y = float_le x y.
Proof. unfold np_le. by intros ->. Qed.

(** Two values that are maximal together are the same value, or two
    zeros. *)
Lemma np_le_antisym x y :
  np_le x y = true → np_le y x = true →
  x = y ∨ (iszero x = true ∧ iszero y = true).
Proof.
  unfold np_le, float_le.
  float_cases; intros;
    first [ by left
          | left; f_equal; lia
          | right; split; first [done | lia] ].
Qed.

(** ** Arg-max and max of a score vector *)

Lemma foldl_maximum_nan (l : array1) : foldl np.maximum NaN l = NaN.
Proof.
  induction l as [|x l IH]; simpl; [done |].
  unfold np.maximum at 2. by rewrite orb_true_r.
Qed.

Lemma maximum_keep x mp : float_le x mp = true → np.maximum mp x = mp.
Proof. unfold np.maximum, float_ge. by intros ->. Qed.

Lemma maximum_take x mp :
  isnan mp = false → float_le x mp = false → np.maximum mp x = x.
Proof. unfold np.maximum, float_ge. by intros -> ->. Qed.

(** The scan and the reduction walk the vector together: [pre] is what
    they have seen, [mp] its greatest value, first met at [max_ind]. *)
Lemma argmax_scan_first_max (ip pre : array1) (mp : float) (max_ind : nat) :
  isnan mp = false →
  pre !! max_ind = Some mp →
  (∀ x, x ∈ pre → float_le x mp = true) →
  (∀ j x, pre !! j = Some x → float_le mp x = true → (max_ind ≤ j)%nat) →
  first_max (pre ++ ip) (np.argmax_scan ip (length pre) mp max_ind)
            (foldl np.maximum mp ip).
Proof.
  revert pre mp max_ind.
  induction ip as [|x ip IH]; intros pre mp max_ind Hnan Hat Hub Hfirst; simpl.
  - rewrite app_nil_r. split_and!; [done | |].
    + intros x Hx. rewrite np_le_float_le by done. by apply Hub.
    + intros j x Hj Hle.
      assert (float_le x mp = true) as Hx
        by (apply Hub, list_elem_of_lookup; eauto).
      apply (Hfirst j x Hj). destruct x; done.
  - assert (Hlen : (max_ind < length pre)%nat) by eauto using lookup_lt_Some.
    assert (Hsnoc : ∀ l : array1, (pre ++ [x]) ++ l = pre ++ x :: l)
      by (intros l; by rewrite <- app_assoc).
    assert (HS : length (pre ++ [x]) = S (length pre))
      by (rewrite length_app; simpl; lia).
    destruct (float_le x mp) eqn:Hle.
    + rewrite maximum_keep by done.
      rewrite <- Hsnoc, <- HS. apply IH; [done | | |].
      * by rewrite lookup_app_l.
      * intros y [Hy | ->%list_elem_of_singleton]%elem_of_app; auto.
      * intros j y Hj Hy.
        destruct (decide (j < length pre)%nat) as [Hlt | Hge]; [| lia].
        rewrite lookup_app_l in Hj by done. eauto.
    + destruct (isnan x) eqn:Hx.
      * destruct x; try done.
        rewrite maximum_take, foldl_maximum_nan by done.
        split_and!.
        -- by rewrite list_lookup_middle.
        -- done.
        -- intros j y Hj Hy.
           destruct (decide (j < length pre)%nat) as [Hlt | Hge]; [| lia].
           rewrite lookup_app_l in Hj by done.
           assert (float_le y mp = true) as Hym
             by (apply Hub, list_elem_of_lookup; eauto).
           destruct y; done.
      * rewrite maximum_take by done.
        rewrite <- Hsnoc, <- HS. apply IH; [done | | |].
        -- by rewrite lookup_app_r, Nat.sub_diag by lia.
        -- intros y [Hy | ->%list_elem_of_singleton]%elem_of_app.
           ++ eapply float_le_trans; [by apply Hub |].
              by apply float_le_total.
           ++ by apply float_le_refl.
        -- intros j y Hj Hy.
           destruct (decide (j < length pre)%nat) as [Hlt | Hge]; [| lia].
           rewrite lookup_app_l in Hj by done.
           assert (float_le y mp = true) as Hym
             by (apply Hub, list_elem_of_lookup; eauto).
           assert (float_le x mp = true) by eauto using float_le_trans.
           congruence.
Qed.

(** [np.argmax] and [np.max] agree on every vector that is not empty. *)
Lemma argmax_max_first_max (a : array1) :
  a ≠ [] →
  ∃ i v, np.argmax a = Ok i ∧ np.max a = Ok v ∧ first_max a i v.
Proof.
  destruct a as [|x a]; [done | intros _].
  eexists _, _. split_and!; [done | done |]. simpl.
  destruct (isnan x) eqn:Hx.
  - destruct x; try done. rewrite foldl_maximum_nan.
    split_and!; [done | done | intros; lia].
  - apply (argmax_scan_first_max a [x] x 0); [done | done | |].
    + intros y ->%list_elem_of_singleton. by apply float_le_refl.
    + intros; lia.
Qed.

Lemma first_max_lt_length a i v : first_max a i v → (i < length a)%nat.
Proof. intros [Hi _]. eauto using lookup_lt_Some. Qed.

(** ** Stepping through a computation *)

Section Steps.
Context `{RT : Runtime}.

Lemma bind_normal {A B} (m : Py A) (k : A → Py B) w w' a :
  m w = (w', Normal a) → (m ≫= k) w = k a w'.
Proof. unfold mbind, Py_bind. by intros ->. Qed.

Lemma bind_abrupt {A B} (m : Py A) (k : A → Py B) w w' e :
  m w = (w', Abrupt e) → (m ≫= k) w = (w', Abrupt e).
Proof. unfold mbind, Py_bind. by intros ->. Qed.

Lemma ret_bind {A B} (a : A) (k : A → Py B) w : (mret a ≫= k) w = k a w.
Proof. done. Qed.

Lemma get_normal {A} (f : Interpreter → A) h o w :
  heap w !! h = Some o → get h f w = (w, Normal (f o)).
Proof. unfold get. by intros ->. Qed.

Lemma update_normal (f : Interpreter → result Interpreter) h o o' w :
  heap w !! h = Some o → f o = Ok o' →
  update h f w = (set_heap (<[h:=o']> (heap w)) w, Normal ()).
Proof. unfold update. by intros -> ->. Qed.

Lemma update_abrupt (f : Interpreter → result Interpreter) h o e w :
  heap w !! h = Some o → f o = Raise e → update h f w = (w, Abrupt e).
Proof. unfold update. by intros -> ->. Qed.

Lemma set_heap_set_heap h1 h2 w : set_heap h2 (set_heap h1 w) = set_heap h2 w.
Proof. done. Qed.

Lemma heap_set_heap h w : heap (set_heap h w) = h.
Proof. done. Qed.

(** The forward pass: what [tflite_fp32_predict] returns and what it
    leaves in the interpreter, when the runtime accepts the tensor and
    yields a row of scores. *)
Lemma predict_first_max (w : World) (interpreter : handle) (image : array4)
    (o o1 o2 : Interpreter) (d_in d_out : tensor_details)
    (scores : array1) (rest : array2) :
  heap w !! interpreter = Some o →
  tflite_get_input_details o !! 0%nat = Some d_in →
  tflite_get_output_details o !! 0%nat = Some d_out →
  tflite_set_tensor o (index d_in) image = Ok o1 →
  tflite_invoke o1 = Ok o2 →
  tflite_get_tensor o2 (index d_out) = Ok (scores :: rest) →
  scores ≠ [] →
  ∃ pred confidence,
    tflite_fp32_predict interpreter image w
      = (set_heap (<[interpreter:=o2]> (heap w)) w, Normal (pred, confidence)) ∧
    np.argmax scores = Ok pred ∧
    np.max scores = Ok confidence ∧
    first_max scores pred confidence.
Proof.
  intros Hheap Hin Hout Hset Hinvoke Hget Hne.
  destruct (argmax_max_first_max scores Hne) as (pred & confidence & Harg & Hmax & Hfm).
  exists pred, confidence. split; [| done].
  assert (Hlt : (interpreter < length (heap w))%nat) by eauto using lookup_lt_Some.
  assert (H1 : heap (set_heap (<[interpreter:=o1]> (heap w)) w) !! interpreter = Some o1)
    by (by apply list_lookup_insert_eq).
  assert (H2 : heap (set_heap (<[interpreter:=o2]> (heap w)) w) !! interpreter = Some o2)
    by (by apply list_lookup_insert_eq).
  unfold tflite_fp32_predict.
  rewrite !(bind_normal _ _ _ _ _ (get_normal _ _ _ _ Hheap)).
  unfold getitem. rewrite Hin, Hout. simpl lift. rewrite ret_bind.
  rewrite (bind_normal _ _ _ _ _ (update_normal _ _ _ _ _ Hheap Hset)).
  rewrite (bind_normal _ _ _ _ _ (update_normal _ _ _ _ _ H1 Hinvoke)).
  rewrite heap_set_heap, set_heap_set_heap, list_insert_insert_eq.
  rewrite ret_bind.
  rewrite (bind_normal _ _ _ _ _ (get_normal _ _ _ _ H2)). unfold id.
  rewrite Hget. simpl lift. rewrite ret_bind.
  unfold np.getitem. simpl lookup. simpl lift. rewrite ret_bind.
  rewrite Harg. simpl lift. rewrite !ret_bind.
  by rewrite Hmax.
Qed.

(** C1. When the runtime accepts the tensor and the forward pass leaves
    a row of five scores, [tflite_fp32_predict] returns a pair (index,
    value): the value is the score at that index, no score of the row
    is greater (in NumPy's order, where NaN counts as greatest; in the
    order of IEEE 754 when the row is free of NaN), and the index is one
    of 0, 1, 2, 3, 4. *)
Theorem tflite_fp32_predict_argmax (w : World) (interpreter : handle)
    (image : array4) (o o1 o2 : Interpreter) (d_in d_out : tensor_details)
    (scores : array1) (rest : array2) :
  heap w !! interpreter = Some o →
  tflite_get_input_details o !! 0%nat = Some d_in →
  tflite_get_output_details o !! 0%nat = Some d_out →
  tflite_set_tensor o (index d_in) image = Ok o1 →
  tflite_invoke o1 = Ok o2 →
  tflite_get_tensor o2 (index d_out) = Ok (scores :: rest) →
  length scores = 5%nat →
  ∃ pred confidence,
    tflite_fp32_predict interpreter image w
      = (set_heap (<[interpreter:=o2]> (heap w)) w, Normal (pred, confidence)) ∧
    (pred ≤ 4)%nat ∧
    scores !! pred = Some confidence ∧
    (∀ x, x ∈ scores → np_le x confidence = true) ∧
    ((∀ x, x ∈ scores → isnan x = false) →
     ∀ x, x ∈ scores → float_le x confidence = true).
Proof.
  intros Hheap Hin Hout Hset Hinvoke Hget Hlen.
  assert (Hne : scores ≠ []) by (by destruct scores).
  destruct (predict_first_max w interpreter image o o1 o2 d_in d_out scores rest)
    as (pred & confidence & Hrun & _ & _ & Hfm); try done.
  exists pred, confidence.
  pose proof (first_max_lt_length _ _ _ Hfm) as Hlt.
  destruct Hfm as (Hat & Hub & _).
  split_and!; [done | lia | done | done |].
  intros Hnan x Hx. rewrite <- np_le_float_le; [by apply Hub |].
  apply Hnan, list_elem_of_lookup. eauto.
Qed.

(** C9. Ties go to the first occurrence: the index returned by
    [tflite_fp32_predict] holds the greatest score, and every index that
    holds a score as great (the same value, then, or a zero of the
    other sign) is at or after it. *)
Theorem tflite_fp32_predict_first_occurrence (w : World) (interpreter : handle)
    (image : array4) (o o1 o2 : Interpreter) (d_in d_out : tensor_details)
    (scores : array1) (rest : array2) :
  heap w !! interpreter = Some o →
  tflite_get_input_details o !! 0%nat = Some d_in →
  tflite_get_output_details o !! 0%nat = Some d_out →
  tflite_set_tensor o (index d_in) image = Ok o1 →
  tflite_invoke o1 = Ok o2 →
  tflite_get_tensor o2 (index d_out) = Ok (scores :: rest) →
  scores ≠ [] →
  ∃ pred confidence,
    tflite_fp32_predict interpreter image w
      = (set_heap (<[interpreter:=o2]> (heap w)) w, Normal (pred, confidence)) ∧
    scores !! pred = Some confidence ∧
    (∀ x, x ∈ scores → np_le x confidence = true) ∧
    (∀ j, scores !! j = Some confidence → (pred ≤ j)%nat) ∧
    (∀ j x, scores !! j = Some x → np_le confidence x = true →
            (x = confidence ∨ (iszero x = true ∧ iszero confidence = true)) ∧
            (pred ≤ j)%nat).
Proof.
  intros Hheap Hin Hout Hset Hinvoke Hget Hne.
  destruct (predict_first_max w interpreter image o o1 o2 d_in d_out scores rest)
    as (pred & confidence & Hrun & _ & _ & Hat & Hub & Hfirst); try done.
  exists pred, confidence. split_and!; [done | done | done | |].
  - intros j Hj. apply (Hfirst j confidence Hj), np_le_refl.
  - intros j x Hj Hle. split; [| by eauto].
    apply np_le_antisym; [| done]. apply Hub, list_elem_of_lookup. eauto.
Qed.

End Steps.

Lemma tflite_fp32_predict_argmax_witness :
  ∃ pred confidence,
    tflite_fp32_predict 0%nat Demo.black (Demo.loaded legacy)
      = (set_heap
           (<[0%nat := {| Demo.scores_of := Demo.scores_of Demo.rice;
                           Demo.input_slot := Some Demo.black;
                           Demo.output_slot := Some [Demo.scores_of Demo.rice] |}]>
              (heap (Demo.loaded legacy)))
           (Demo.loaded legacy),
         Normal (pred, confidence)) ∧
    (pred ≤ 4)%nat ∧
    Demo.scores_of Demo.rice !! pred = Some confidence ∧
    (∀ x, x ∈ Demo.scores_of Demo.rice → np_le x confidence = true) ∧
    ((∀ x, x ∈ Demo.scores_of Demo.rice → isnan x = false) →
     ∀ x, x ∈ Demo.scores_of Demo.rice → float_le x confidence = true).
Proof.
  eapply (tflite_fp32_predict_argmax (RT := Demo.runtime legacy)
            (Demo.loaded legacy) 0%nat Demo.black Demo.rice);
    reflexivity.
Defined.

(** A row in which the greatest score, 5, occurs three times, at the
    positions 1, 2 and 4: the prediction is 1. *)
Lemma tflite_fp32_predict_first_occurrence_witness :
  ∃ pred confidence,
    tflite_fp32_predict 0%nat Demo.black (Edge.tied_loaded legacy)
      = (set_heap
           (<[0%nat := {| Demo.scores_of := Edge.ties;
                           Demo.input_slot := Some Demo.black;
                           Demo.output_slot := Some [Edge.ties] |}]>
              (heap (Edge.tied_loaded legacy)))
           (Edge.tied_loaded legacy),
         Normal (pred, confidence)) ∧
    pred = 1%nat ∧
    Edge.ties !! 2%nat = Some confidence ∧
    Edge.ties !! 4%nat = Some confidence ∧
    Edge.ties !! pred = Some confidence ∧
    (∀ x, x ∈ Edge.ties → np_le x confidence = true) ∧
    (∀ j, Edge.ties !! j = Some confidence → (pred ≤ j)%nat) ∧
    (∀ j x, Edge.ties !! j = Some x → np_le confidence x = true →
            (x = confidence ∨ (iszero x = true ∧ iszero confidence = true)) ∧
            (pred ≤ j)%nat).
Proof.
  edestruct (tflite_fp32_predict_first_occurrence (RT := Edge.runtime legacy)
               (Edge.tied_loaded legacy) 0%nat Demo.black Edge.tied)
    as (pred & confidence & Hrun & Hrest); [reflexivity .. | discriminate |].
  assert (Hvalue :
    tflite_fp32_predict (RT := Edge.runtime legacy) 0%nat Demo.black
      (Edge.tied_loaded legacy)
    = (set_heap
         (<[0%nat := {| Demo.scores_of := Edge.ties;
                         Demo.input_slot := Some Demo.black;
                         Demo.output_slot := Some [Edge.ties] |}]>
            (heap (Edge.tied_loaded legacy)))
         (Edge.tied_loaded legacy),
       Normal (1%nat, float_of_Z 5))) by reflexivity.
  assert (Hpair : (1%nat, float_of_Z 5) = (pred, confidence)).
  { rewrite Hvalue in Hrun. congruence. }
  injection Hpair as <- <-.
  exists 1%nat, (float_of_Z 5).
  split; [exact Hvalue |].
  split; [reflexivity |].
  split; [reflexivity |].
  split; [reflexivity |].
  exact Hrest.
Defined.

(** ** Rounding *)

Lemma rne_le n d m : 0 < d → n ≤ m * d → rne n d ≤ m.
Proof.
  intros Hd Hn. unfold rne.
  pose proof (Z.div_mod n d ltac:(lia)) as Hdm.
  pose proof (Z.mod_pos_bound n d Hd) as Hr.
  assert (n / d ≤ m) by nia.
  repeat case_match; try lia; nia.
Qed.

Lemma rne_ge n d m : 0 < d → m * d ≤ n → m ≤ rne n d.
Proof.
  intros Hd Hn. unfold rne.
  pose proof (Z.div_mod n d ltac:(lia)) as Hdm.
  pose proof (Z.mod_pos_bound n d Hd) as Hr.
  assert (m ≤ n / d) by nia.
  repeat case_match; lia.
Qed.

Lemma rne_exact m d : 0 < d → rne (m * d) d = m.
Proof.
  intros Hd. unfold rne.
  rewrite Z.div_mul, Z.mod_mul by lia.
  case_match; lia.
Qed.

Lemma place_nonneg f a : 0 ≤ smin f → 0 ≤ place f a.
Proof. unfold place. lia. Qed.

Lemma place_mono f a b : a ≤ b → place f a ≤ place f b.
Proof. intros Hab. unfold place. pose proof (Z.log2_le_mono a b Hab). lia. Qed.

Lemma pow2_divide s t : 0 ≤ s ≤ t → (2 ^ s | 2 ^ t).
Proof.
  intros Hst. exists (2 ^ (t - s)).
  rewrite <- Z.pow_add_r by lia. f_equal. lia.
Qed.

(** A magnitude below 2^(place + prec). *)
Lemma place_bound f a : 0 ≤ a → 1 ≤ prec f → a < 2 ^ (place f a + prec f).
Proof.
  intros Ha Hp.
  destruct (decide (a = 0)) as [-> | Hne].
  { apply Z.pow_pos_nonneg; [lia |]. unfold place. simpl. lia. }
  pose proof (Z.log2_spec a ltac:(lia)) as [_ Hlt].
  eapply Z.lt_le_trans; [exact Hlt |].
  apply Z.pow_le_mono_r; [lia |]. unfold place. lia.
Qed.

Lemma place_ge_smin f a : smin f ≤ place f a.
Proof. unfold place. lia. Qed.

Lemma rne_zero d : 0 < d → rne 0 d = 0.
Proof. intros Hd. apply (rne_exact 0 d Hd). Qed.

(** The magnitude of a rounded number: a significand of at most 2^prec
    at the place of the number it comes from. *)
Lemma round_fin_abs f n d :
  0 < d → 0 ≤ smin f →
  let s := place f (Z.abs n / d) in
  Z.abs (round_fin f n d) = rne (Z.abs n) (d * 2 ^ s) * 2 ^ s.
Proof.
  intros Hd Hs s. unfold round_fin. fold s.
  assert (0 < 2 ^ s) by (apply Z.pow_pos_nonneg; [lia | by apply place_nonneg]).
  assert (0 ≤ rne (Z.abs n) (d * 2 ^ s))
    by (apply rne_ge; [nia | lia]).
  destruct (Z.sgn_spec n) as [[? ->] | [[<- ->] | [? ->]]].
  - rewrite Z.abs_eq by nia. lia.
  - simpl. rewrite rne_zero by nia. lia.
  - rewrite Z.abs_neq by nia. lia.
Qed.

Lemma round_fin_significand f n d :
  0 < d → 0 ≤ smin f → 1 ≤ prec f →
  let s := place f (Z.abs n / d) in
  0 ≤ rne (Z.abs n) (d * 2 ^ s) ≤ 2 ^ prec f.
Proof.
  intros Hd Hs Hp s.
  assert (0 ≤ s) by (by apply place_nonneg).
  assert (0 < 2 ^ s) by (apply Z.pow_pos_nonneg; lia).
  split; [apply rne_ge; [nia | lia] |].
  apply rne_le; [nia |].
  pose proof (place_bound f (Z.abs n / d) ltac:(apply Z.div_pos; lia) Hp) as Hb.
  fold s in Hb. rewrite Z.pow_add_r in Hb by lia.
  pose proof (Z.div_mod (Z.abs n) d ltac:(lia)).
  pose proof (Z.mod_pos_bound (Z.abs n) d Hd).
  nia.
Qed.

(** A result that is not negative. *)
Lemma round_false f n d :
  round f false n d =
    if 2 ^ ovf f <=? Z.abs (round_fin f n d) then Inf false
    else Fin (round_fin f n d).
Proof.
  unfold round. case_match; [done |].
  destruct (Z.eqb_spec (round_fin f n d) 0) as [-> | _]; done.
Qed.

(** Rounding lands in the format. *)
Lemma round_in_format f neg n d :
  0 < d → 0 ≤ smin f → 1 ≤ prec f → in_format f (round f neg n d) = true.
Proof.
  intros Hd Hs Hp. unfold round.
  destruct (2 ^ ovf f <=? Z.abs (round_fin f n d)) eqn:Hovf; [done |].
  assert (Hfin : in_format f (Fin (round_fin f n d)) = true).
  { apply Z.leb_gt in Hovf. unfold in_format.
    apply andb_true_iff. split; [| by apply Z.ltb_lt].
    apply Z.eqb_eq.
    pose proof (round_fin_abs f n d Hd Hs) as Habs.
    pose proof (round_fin_significand f n d Hd Hs Hp) as [Hm0 Hm].
    simpl in Habs, Hm0, Hm.
    set (s := place f (Z.abs n / d)) in *.
    set (m := rne (Z.abs n) (d * 2 ^ s)) in *.
    assert (0 ≤ s) by (by apply place_nonneg).
    assert (smin f ≤ s) by apply place_ge_smin.
    assert (0 < 2 ^ s) by (apply Z.pow_pos_nonneg; lia).
    rewrite Habs.
    apply Z.mod_divide; [apply Z.pow_nonzero; [lia | by apply place_nonneg] |].
    destruct (decide (m = 2 ^ prec f)) as [-> | Hne].
    - rewrite <- Z.pow_add_r by lia.
      apply pow2_divide. split; [by apply place_nonneg |].
      unfold place. rewrite Z.log2_pow2 by lia. lia.
    - destruct (decide (m = 0)) as [-> | Hm1]; [apply Z.divide_0_r |].
      apply Z.divide_mul_r, pow2_divide. split; [by apply place_nonneg |].
      assert (m * 2 ^ s < 2 ^ (prec f + s))
        by (rewrite Z.pow_add_r by lia; nia).
      assert (Z.log2 (m * 2 ^ s) < prec f + s)
        by (apply Z.log2_lt_pow2; [nia | done]).
      unfold place. lia. }
  destruct (Z.eqb_spec (round_fin f n d) 0) as [Hzero | _]; [| done].
  destruct neg; [done |]. unfold signed_zero. by rewrite <- Hzero.
Qed.

(** Conversion to a format leaves its members alone. *)
Lemma cast_in_format f x : 0 ≤ smin f → in_format f x = true → cast f x = x.
Proof.
  intros Hs Hx. destruct x as [| |k|]; [done | done | | done].
  unfold in_format in Hx. apply andb_true_iff in Hx as [Hmod Hovf].
  apply Z.eqb_eq in Hmod. apply Z.ltb_lt in Hovf.
  unfold cast, round.
  assert (Hk : round_fin f k 1 = k).
  { unfold round_fin. rewrite Z.div_1_r, Z.mul_1_l.
    set (s := place f (Z.abs k)) in *.
    assert (0 < 2 ^ s) by (apply Z.pow_pos_nonneg; [lia | by apply place_nonneg]).
    apply Z.mod_divide in Hmod as [c Hc]; [| lia].
    rewrite Hc at 1. rewrite rne_exact by done. rewrite <- Hc.
    destruct (Z.sgn_spec k) as [[? ->] | [[<- ->] | [? ->]]]; lia. }
  rewrite Hk. case_match; [lia |].
  by destruct (Z.eqb_spec k 0) as [-> | _].
Qed.

(** Rounding does not cross a member of the format: a quotient between
    0 and [B] rounds to a number between 0 and [B]. *)
Lemma round_between f n d B :
  0 < d → 0 ≤ smin f →
  in_format f (Fin B) = true →
  0 ≤ n ≤ B * d →
  ∃ k, round f false n d = Fin k ∧ 0 ≤ k ≤ B.
Proof.
  intros Hd Hs HB [Hn0 HnB].
  assert (HB0 : 0 ≤ B) by nia.
  unfold in_format in HB. apply andb_true_iff in HB as [Hmod Hovf].
  apply Z.eqb_eq in Hmod. apply Z.ltb_lt in Hovf.
  rewrite Z.abs_eq in Hmod, Hovf by done.
  exists (round_fin f n d).
  assert (Hk : 0 ≤ round_fin f n d ≤ B).
  { unfold round_fin. rewrite Z.abs_eq by done.
    set (s := place f (n / d)).
    assert (0 ≤ s) by (by apply place_nonneg).
    assert (0 < 2 ^ s) by (apply Z.pow_pos_nonneg; lia).
    assert (Hle : s ≤ place f B).
    { apply place_mono, Z.div_le_upper_bound; [done | lia]. }
    assert (Hdiv : (2 ^ s | B)).
    { etrans; [by apply (pow2_divide s (place f B)) |].
      apply Z.mod_divide; [| done].
      apply Z.pow_nonzero; [lia | by apply place_nonneg]. }
    destruct Hdiv as [c Hc].
    assert (0 ≤ rne n (d * 2 ^ s)) by (apply rne_ge; [nia | lia]).
    assert (rne n (d * 2 ^ s) ≤ c) by (apply rne_le; nia).
    destruct (Z.sgn_spec n) as [[? ->] | [[<- ->] | [? ->]]]; nia. }
  split; [| done]. rewrite round_false.
  rewrite Z.abs_eq by lia. case_match; [lia | done].
Qed.

Lemma rne_error n d : 0 < d → 2 * Z.abs (rne n d * d - n) ≤ d.
Proof.
  intros Hd. unfold rne.
  pose proof (Z.div_mod n d ltac:(lia)) as Hdm.
  pose proof (Z.mod_pos_bound n d Hd) as Hr.
  repeat case_match; nia.
Qed.

(** Rounding a quotient between 0 and a member [B] of the format: the
    result is within half a unit of the last place of [B]. *)
Lemma round_near f n d B :
  0 < d → 0 ≤ smin f →
  in_format f (Fin B) = true →
  0 ≤ n ≤ B * d →
  ∃ k, round f false n d = Fin k ∧ 0 ≤ k ≤ B ∧
       2 * Z.abs (k * d - n) ≤ d * 2 ^ place f B.
Proof.
  intros Hd Hs HB [Hn0 HnB].
  destruct (round_between f n d B Hd Hs HB (conj Hn0 HnB)) as (k & Hround & Hk).
  exists k. split_and!; [done | lia | lia |].
  assert (k = round_fin f n d) as ->.
  { rewrite round_false in Hround.
    destruct (2 ^ ovf f <=? Z.abs (round_fin f n d)); [discriminate |].
    by injection Hround. }
  unfold round_fin. rewrite (Z.abs_eq n) by done.
  set (s := place f (n / d)).
  assert (0 ≤ B) by nia.
  assert (0 ≤ s) by (by apply place_nonneg).
  assert (0 < 2 ^ s) by (apply Z.pow_pos_nonneg; lia).
  assert (Hle : s ≤ place f B).
  { apply place_mono, Z.div_le_upper_bound; [done | lia]. }
  assert (2 ^ s ≤ 2 ^ place f B) by (apply Z.pow_le_mono_r; lia).
  pose proof (rne_error n (d * 2 ^ s) ltac:(nia)) as Herr.
  destruct (Z.sgn_spec n) as [[? ->] | [[<- ->] | [? ->]]]; [| nia | lia].
  replace (1 * (rne n (d * 2 ^ s) * 2 ^ s) * d - n)
    with (rne n (d * 2 ^ s) * (d * 2 ^ s) - n) by lia.
  nia.
Qed.

Lemma float_of_byte_range b :
  ∃ V, float_of_byte b = Fin (V * 2 ^ ulp_exp) ∧ 0 ≤ V ≤ 255.
Proof.
  exists (Z.of_N (Byte.to_N b)). split; [done |].
  pose proof (Byte.to_N_bounded b). lia.
Qed.

(** A scaled channel is a binary32 number between 0 and 1. *)
Lemma scaled_spec b :
  in_unit_interval (scaled b) ∧ in_format binary32 (scaled b) = true.
Proof.
  destruct (float_of_byte_range b) as (V & HV & HV0).
  unfold scaled. rewrite HV. unfold float_of_Z, float_div.
  cbn [units signbit].
  assert (HP : 0 < 2 ^ ulp_exp) by (by apply Z.pow_pos_nonneg).
  set (P := 2 ^ ulp_exp) in *.
  destruct (Z.eqb_spec (255 * P) 0) as [? | _]; [lia |].
  rewrite (proj2 (Z.ltb_ge (V * P) 0)), (proj2 (Z.ltb_ge (255 * P) 0)) by nia.
  cbn [xorb].
  rewrite Z.sgn_pos, Z.abs_eq by lia.
  split; [| by apply round_in_format; [lia | done | done]].
  destruct (round_between binary32 (1 * (V * P) * P) (255 * P) P) as (k & -> & Hk);
    [lia | done | by vm_compute | nia |].
  unfold in_unit_interval, float_of_Z, float_le. cbn [units]. fold P. lia.
Qed.

(** ** Preprocessing *)

Section Preprocessing.
Context `{RT : Runtime}.

Lemma fit_size img height width :
  im_width (fit img (height, width)) = width ∧
  im_height (fit img (height, width)) = height.
Proof.
  unfold fit. case_bool_decide as Heq; [| done].
  by injection Heq as -> ->.
Qed.

Lemma cast_scaled b : cast binary32 (scaled b) = scaled b.
Proof. apply cast_in_format; [done | apply scaled_spec]. Qed.

(** The tensor, pixel by pixel. *)
Lemma tensor_of_pixels img target_size :
  tensor_of img target_size =
    [(λ y, (λ x, scaled_pixel (getpixel (fit img target_size) x y))
           <$> seq 0 (im_width (fit img target_size)))
     <$> seq 0 (im_height (fit img target_size))].
Proof.
  unfold tensor_of, np.astype_float32, np.expand_dims, np.true_divide, img_to_array.
  rewrite list_fmap_singleton. f_equal.
  rewrite <- !list_fmap_compose. apply list_fmap_ext. intros _ y _.
  unfold compose. rewrite <- !list_fmap_compose.
  apply list_fmap_ext. intros _ x _. unfold compose, scaled_pixel.
  destruct (getpixel (fit img target_size) x y) as [[r g] b].
  cbv [fmap list_fmap]. fold (scaled r) (scaled g) (scaled b).
  by rewrite !cast_scaled.
Qed.

Lemma load_single_image_normal (w : World) img_path target_size content img :
  fs w img_path = Some (File content) →
  pil_open content = Ok img →
  load_single_image img_path target_size w
    = (log (Open img_path) w, Normal (tensor_of img target_size)).
Proof.
  intros Hfile Hdecode.
  unfold load_single_image, load_img, read_file, mbind, Py_bind.
  by rewrite Hfile, Hdecode.
Qed.

Lemma Forall_ravel (P : float → Prop) (t : array4) :
  (∀ a3 a2 a1 x, a3 ∈ t → a2 ∈ a3 → a1 ∈ a2 → x ∈ a1 → P x) →
  Forall P (np.ravel t).
Proof.
  intros HP. unfold np.ravel. rewrite !Forall_concat.
  apply Forall_forall. intros a3 H3.
  apply Forall_forall. intros a2 H2.
  apply Forall_forall. intros a1 H1.
  apply Forall_forall. intros x Hx. eauto.
Qed.

Lemma elem_of_scaled_pixel x p : x ∈ scaled_pixel p → ∃ b, x = scaled b.
Proof.
  destruct p as [[r g] b]. unfold scaled_pixel.
  rewrite !elem_of_cons, elem_of_nil. intros [-> | [-> | [-> | []]]]; eauto.
Qed.

(** Every scalar of the tensor is a scaled channel. *)
Lemma tensor_of_scalars (P : float → Prop) img target_size :
  (∀ b, P (scaled b)) → Forall P (np.ravel (tensor_of img target_size)).
Proof.
  intros HP. apply Forall_ravel. intros a3 a2 a1 x.
  rewrite tensor_of_pixels.
  intros ->%list_elem_of_singleton.
  intros (y & -> & _)%list_elem_of_fmap.
  intros (x' & -> & _)%list_elem_of_fmap.
  intros (b & ->)%elem_of_scaled_pixel. apply HP.
Qed.

Lemma tensor_of_shape img height width :
  np.has_shape (tensor_of img (height, width)) 1 height width 3.
Proof.
  rewrite tensor_of_pixels.
  destruct (fit_size img height width) as [-> ->].
  split; [done |]. apply Forall_singleton.
  split; [by rewrite length_fmap, length_seq |].
  apply Forall_fmap, Forall_forall. intros y _. unfold compose.
  split; [by rewrite length_fmap, length_seq |].
  apply Forall_fmap, Forall_forall. intros x _. unfold compose.
  by destruct (getpixel (fit img (height, width)) x y) as [[r g] b].
Qed.

Lemma tensor_of_lookup img height width (y x c : nat) b :
  (y < height)%nat → (x < width)%nat →
  channel c (getpixel (fit img (height, width)) x y) = Some b →
  np.item (tensor_of img (height, width)) 0 y x c = Some (scaled b).
Proof.
  intros Hy Hx Hc. rewrite tensor_of_pixels.
  destruct (fit_size img height width) as [Hfw Hfh].
  set (img' := fit img (height, width)) in *. rewrite Hfw, Hfh.
  unfold np.item. simpl.
  rewrite list_lookup_fmap, lookup_seq_lt by done. simpl.
  rewrite list_lookup_fmap, lookup_seq_lt by done. simpl.
  destruct (getpixel img' x y) as [[r g] b'].
  unfold channel in Hc. unfold scaled_pixel.
  destruct c as [|[|[|c]]]; simpl in Hc; simplify_eq; done.
Qed.

(** Fitting a solid image leaves it solid. *)
Lemma fit_solid img height width V :
  nearest_in_range →
  (0 < im_width img)%nat → (0 < im_height img)%nat →
  solid img V → solid (fit img (height, width)) V.
Proof.
  intros Hgrid Hw Hh Hsolid. unfold fit.
  case_bool_decide; [done |].
  intros x y Hx Hy. simpl in *. apply Hsolid; by apply Hgrid.
Qed.

Lemma tensor_of_solid img height width V :
  nearest_in_range →
  (0 < im_width img)%nat → (0 < im_height img)%nat →
  solid img V →
  tensor_of img (height, width)
    = [replicate height (replicate width (replicate 3 (scaled V)))].
Proof.
  intros Hgrid Hw Hh Hsolid.
  pose proof (fit_solid img height width V Hgrid Hw Hh Hsolid) as Hfit.
  rewrite tensor_of_pixels.
  destruct (fit_size img height width) as [Hfw Hfh].
  rewrite Hfw, Hfh in *. f_equal.
  transitivity (replicate (length (seq 0 height))
                  (replicate width (replicate 3 (scaled V))));
    [| by rewrite length_seq].
  apply const_fmap. intros ? y [-> Hy]%lookup_seq.
  transitivity (replicate (length (seq 0 width)) (replicate 3 (scaled V)));
    [| by rewrite length_seq].
  apply const_fmap. intros ? x [-> Hx]%lookup_seq.
  rewrite Hfit by (rewrite ?Hfw, ?Hfh; done). done.
Qed.

(** C3. A decodable image becomes a tensor of shape (1, 128, 128, 3)
    whose scalars are binary32 numbers. *)
Theorem load_single_image_shape (w : World) (img_path : string)
    (content : list byte) (img : Image) :
  fs w img_path = Some (File content) →
  pil_open content = Ok img →
  ∃ t, load_single_image img_path default_target_size w
         = (log (Open img_path) w, Normal t) ∧
       np.has_shape t 1 128 128 3 ∧
       Forall (λ x, in_format binary32 x = true) (np.ravel t).
Proof.
  intros Hfile Hdecode. exists (tensor_of img default_target_size).
  split_and!.
  - by apply load_single_image_normal with content.
  - apply tensor_of_shape.
  - apply tensor_of_scalars. intros b. apply scaled_spec.
Qed.

(** C2. The scalar at row y, column x, channel c of the tensor is the
    intensity of that channel of that pixel divided by 255.0 in
    binary32; every scalar lies between 0 and 1; and the tensor of a
    solid image of intensity V holds V / 255.0 everywhere. *)
Theorem load_single_image_scaled (w : World) (img_path : string)
    (content : list byte) (img : Image) :
  fs w img_path = Some (File content) →
  pil_open content = Ok img →
  ∃ t, load_single_image img_path default_target_size w
         = (log (Open img_path) w, Normal t) ∧
       (∀ (y x c : nat) (b : byte),
          (y < 128)%nat → (x < 128)%nat →
          channel c (getpixel (fit img default_target_size) x y) = Some b →
          np.item t 0 y x c
            = Some (float_div binary32 (float_of_byte b) (float_of_Z 255))) ∧
       Forall in_unit_interval (np.ravel t) ∧
       (∀ V : byte,
          nearest_in_range →
          (0 < im_width img)%nat → (0 < im_height img)%nat →
          solid img V →
          t = [replicate 128 (replicate 128 (replicate 3
                 (float_div binary32 (float_of_byte V) (float_of_Z 255))))]).
Proof.
  intros Hfile Hdecode. exists (tensor_of img default_target_size).
  split_and!.
  - by apply load_single_image_normal with content.
  - intros y x c b Hy Hx Hc. by apply tensor_of_lookup.
  - apply tensor_of_scalars. intros b. apply scaled_spec.
  - intros V Hgrid Hw Hh Hsolid. by apply tensor_of_solid.
Qed.

End Preprocessing.

Lemma Demo_nearest_in_range p : nearest_in_range (RT := Demo.runtime p).
Proof.
  intros s d i Hs Hi. simpl. unfold Demo.nearest.
  apply Nat.Div0.div_lt_upper_bound. nia.
Qed.

Lemma Demo_grey_solid : solid Demo.grey x80.
Proof.
  intros x y Hx Hy. simpl in *.
  destruct x as [|[|x]], y as [|[|y]]; try lia; reflexivity.
Qed.

Lemma load_single_image_shape_witness :
  ∃ t, load_single_image "grey.png" default_target_size (Demo.loaded legacy)
         = (log (Open "grey.png") (Demo.loaded legacy), Normal t) ∧
       np.has_shape t 1 128 128 3 ∧
       Forall (λ x, in_format binary32 x = true) (np.ravel t).
Proof.
  apply (load_single_image_shape (RT := Demo.runtime legacy)
           (Demo.loaded legacy) "grey.png"
           ([x02; x02] ++ replicate 12 x80) Demo.grey);
    reflexivity.
Defined.

Lemma load_single_image_scaled_witness :
  load_single_image "grey.png" default_target_size (Demo.loaded legacy)
    = (log (Open "grey.png") (Demo.loaded legacy),
       Normal [replicate 128 (replicate 128 (replicate 3
                 (float_div binary32 (float_of_byte x80) (float_of_Z 255))))]).
Proof.
  destruct (load_single_image_scaled (RT := Demo.runtime legacy)
              (Demo.loaded legacy) "grey.png"
              ([x02; x02] ++ replicate 12 x80) Demo.grey)
    as (t & Hrun & _ & _ & Hsolid); [reflexivity | reflexivity |].
  rewrite Hrun.
  rewrite (Hsolid x80 (Demo_nearest_in_range legacy)); [reflexivity | | |].
  - simpl. lia.
  - simpl. lia.
  - apply Demo_grey_solid.
Defined.

(** ** The two gates *)

Section Gates.
Context `{RT : Runtime}.

Lemma exists_missing (w : World) path :
  fs w path = None → os_path_exists path w = (log (Stat path) w, Normal false).
Proof. unfold os_path_exists. intros ->. done. Qed.

Lemma exists_present (w : World) path :
  is_Some (fs w path) → os_path_exists path w = (log (Stat path) w, Normal true).
Proof.
  unfold os_path_exists. intros H. by rewrite bool_decide_eq_true_2.
Qed.

(** The run stops at the first gate when the model is missing. *)
Lemma run_model_missing files args :
  files (model args) = None →
  run files args =
    {| out := "Model not found: " +:+ model args +:+ nl;
       err := "";
       status := 1;
       calls := [Stat (model args)] |}.
Proof.
  intros Hmodel. unfold run, __main__.
  rewrite (bind_normal _ _ _ _ _ (exists_missing (boot files) _ Hmodel)).
  done.
Qed.

(** The run stops at the second gate when only the image is missing. *)
Lemma run_image_missing files args :
  is_Some (files (model args)) →
  files (image args) = None →
  run files args =
    {| out := "Image not found: " +:+ image args +:+ nl;
       err := "";
       status := 1;
       calls := [Stat (model args); Stat (image args)] |}.
Proof.
  intros Hmodel Himage. unfold run, __main__.
  rewrite (bind_normal _ _ _ _ _ (exists_present (boot files) _ Hmodel)).
  simpl negb. cbv iota. rewrite ret_bind.
  rewrite (bind_normal _ _ _ _ _
             (exists_missing (log (Stat (model args)) (boot files)) _ Himage)).
  done.
Qed.

Lemma main_checked files args :
  is_Some (files (model args)) →
  is_Some (files (image args)) →
  __main__ args (boot files) =
    try_except
      (classify (model args) (image args))
      (λ e, print_stderr ("Error: " +:+ exn_msg e);; sys_exit 1)
      (checked files args).
Proof.
  intros Hmodel Himage. unfold __main__.
  rewrite (bind_normal _ _ _ _ _ (exists_present (boot files) _ Hmodel)).
  simpl negb. cbv iota. rewrite ret_bind.
  rewrite (bind_normal _ _ _ _ _
             (exists_present (log (Stat (model args)) (boot files)) _ Himage)).
  done.
Qed.
End Gates.

(** ** Computations that neither exit nor write to standard error *)

Section Quiet.
Context `{RT : Runtime}.

Lemma quiet_ret {A} (a : A) : quiet (mret a).
Proof. by intros w w' c [= <- <-]. Qed.

Lemma quiet_raise {A} e : quiet (raise (A:=A) e).
Proof. by intros w w' c [= <- <-]. Qed.

Lemma quiet_lift {A} (r : result A) : quiet (lift r).
Proof. destruct r; [apply quiet_ret | apply quiet_raise]. Qed.

Lemma quiet_bind {A B} (m : Py A) (k : A → Py B) :
  quiet m → (∀ a, quiet (k a)) → quiet (m ≫= k).
Proof.
  intros Hm Hk w w' c. unfold mbind, Py_bind.
  destruct (m w) as [w1 [a | e | n]] eqn:Hmw;
    destruct (Hm _ _ _ Hmw) as (Herr & Htrace & Hc).
  - intros Hkw. destruct (Hk _ _ _ _ Hkw) as (? & ? & ?).
    split_and!; [congruence | by etrans | done].
  - by intros [= <- <-].
  - by destruct (Hc n).
Qed.

Lemma quiet_print s : quiet (print s).
Proof. by intros w w' c [= <- <-]. Qed.

Lemma quiet_read_file path : quiet (read_file path).
Proof.
  intros w w' c [= <- <-].
  split_and!; [done | by apply prefix_app_r | by repeat case_match].
Qed.

Lemma quiet_open_model path : quiet (open_model path).
Proof.
  intros w w' c [= <- <-].
  split_and!; [done | by apply prefix_app_r | by repeat case_match].
Qed.

Lemma quiet_new o : quiet (new o).
Proof. by intros w w' c [= <- <-]. Qed.

Lemma quiet_get {A} h (f : Interpreter → A) : quiet (get h f).
Proof. intros w w' c. unfold get. by case_match; intros [= <- <-]. Qed.

Lemma quiet_update h f : quiet (update h f).
Proof.
  intros w w' c. unfold update. by repeat case_match; intros [= <- <-].
Qed.

Lemma quiet_load_interpreter path : quiet (load_interpreter path).
Proof.
  unfold load_interpreter.
  repeat first
    [ apply quiet_ret | apply quiet_lift | apply quiet_open_model
    | apply quiet_new | apply quiet_update
    | apply quiet_bind; [| intros ?] ].
Qed.

Lemma quiet_load_single_image path size : quiet (load_single_image path size).
Proof.
  unfold load_single_image, load_img.
  repeat first
    [ apply quiet_ret | apply quiet_lift | apply quiet_read_file
    | apply quiet_bind; [| intros ?] ].
Qed.

Lemma quiet_predict h t : quiet (tflite_fp32_predict h t).
Proof.
  unfold tflite_fp32_predict.
  repeat first
    [ apply quiet_ret | apply quiet_lift | apply quiet_get | apply quiet_update
    | apply quiet_bind; [| intros ?] ].
Qed.

Lemma quiet_classify model_path image_path : quiet (classify model_path image_path).
Proof.
  unfold classify.
  apply quiet_bind; [apply quiet_load_interpreter | intros h].
  apply quiet_bind; [apply quiet_load_single_image | intros t].
  apply quiet_bind; [apply quiet_predict | intros [pred confidence]].
  repeat first
    [ apply quiet_print | apply quiet_lift | apply quiet_bind; [| intros ?] ].
Qed.
End Quiet.

(** ** Failures *)

Section Failures.
Context `{RT : Runtime}.

(** No traceback: what the [try] statement does not finish, its
    handler turns into an exit. *)
Lemma run_checked files args :
  is_Some (files (model args)) →
  is_Some (files (image args)) →
  ∀ w c, classify (model args) (image args) (checked files args) = (w, c) →
    run files args =
      match c with
      | Normal _ =>
          {| out := stdout w; err := ""; status := 0; calls := trace w |}
      | Abrupt e =>
          {| out := stdout w; err := "Error: " +:+ exn_msg e +:+ nl;
             status := 1; calls := trace w |}
      | SysExit n =>
          {| out := stdout w; err := ""; status := n; calls := trace w |}
      end.
Proof.
  intros Hmodel Himage w c Hrun.
  destruct (quiet_classify _ _ _ _ _ Hrun) as (Herr & _ & _).
  unfold run. rewrite main_checked by done.
  unfold try_except. rewrite Hrun.
  destruct c as [[] | e | n]; simpl; by rewrite Herr.
Qed.

(** No exception leaves [__main__]: the interpreter never prints a
    traceback for this script. *)
Lemma main_never_raises files args w c :
  __main__ args (boot files) = (w, c) → ∀ e, c ≠ Abrupt e.
Proof.
  intros Hmain e ->.
  destruct (files (model args)) as [m|] eqn:Hmodel.
  2:{ unfold __main__ in Hmain.
      rewrite (bind_normal _ _ _ _ _ (exists_missing (boot files) _ Hmodel)) in Hmain.
      discriminate Hmain. }
  assert (Hm : is_Some (files (model args))) by (by rewrite Hmodel).
  destruct (files (image args)) as [i|] eqn:Himage.
  2:{ unfold __main__ in Hmain.
      rewrite (bind_normal _ _ _ _ _ (exists_present (boot files) _ Hm)) in Hmain.
      simpl negb in Hmain. cbv iota in Hmain. rewrite ret_bind in Hmain.
      rewrite (bind_normal _ _ _ _ _
                 (exists_missing (log (Stat (model args)) (boot files)) _ Himage))
        in Hmain.
      discriminate Hmain. }
  rewrite main_checked in Hmain by (by rewrite ?Himage).
  unfold try_except in Hmain.
  destruct (classify (model args) (image args) (checked files args))
    as [w' [[] | e' | n]]; discriminate Hmain.
Qed.

(** C5. A model path that does not exist: the message goes to standard
    output, nothing goes to standard error, the status is 1, and the
    existence check of the model path is all the run asked of the file
    system. *)
Theorem model_not_found files args :
  files (model args) = None →
  run files args =
    {| out := "Model not found: " +:+ model args +:+ nl;
       err := "";
       status := 1;
       calls := [Stat (model args)] |}.
Proof. apply run_model_missing. Qed.

(** C6. An image path that does not exist, the model path existing: the
    message goes to standard output, nothing goes to standard error,
    the status is 1, and the run asked the file system for the two
    existence checks only. *)
Theorem image_not_found files args :
  is_Some (files (model args)) →
  files (image args) = None →
  run files args =
    {| out := "Image not found: " +:+ image args +:+ nl;
       err := "";
       status := 1;
       calls := [Stat (model args); Stat (image args)] |}.
Proof. apply run_image_missing. Qed.

(** The first thing a run asks is whether the model path exists; the
    second, if there is one, is whether the image path exists. *)
Lemma run_calls files args :
  calls (run files args) = [Stat (model args)] ∨
  ∃ rest, calls (run files args) = Stat (model args) :: Stat (image args) :: rest.
Proof.
  destruct (files (model args)) as [m|] eqn:Hmodel;
    [| left; by rewrite run_model_missing].
  right.
  destruct (files (image args)) as [i|] eqn:Himage;
    [| exists []; by rewrite run_image_missing by (by rewrite ?Hmodel)].
  destruct (classify (model args) (image args) (checked files args))
    as [w c] eqn:Hrun.
  destruct (quiet_classify _ _ _ _ _ Hrun) as (_ & [rest Hrest] & _).
  exists rest.
  rewrite (run_checked files args) with (w := w) (c := c)
    by (by rewrite ?Hmodel, ?Himage).
  by destruct c.
Qed.

(** C10. Both paths missing: the model gate fires first, its message is
    the whole output, and the image path is not looked at. In every run
    the existence check of the model path comes first and that of the
    image path, when the run gets to it, second. *)
Theorem model_gate_first files args :
  files (model args) = None →
  files (image args) = None →
  out (run files args) = "Model not found: " +:+ model args +:+ nl ∧
  err (run files args) = "" ∧
  status (run files args) = 1 ∧
  calls (run files args) = [Stat (model args)] ∧
  ∀ files',
    calls (run files' args) = [Stat (model args)] ∨
    ∃ rest, calls (run files' args) = Stat (model args) :: Stat (image args) :: rest.
Proof.
  intros Hmodel _. rewrite run_model_missing by done.
  split_and!; [done .. |]. intros files'. apply run_calls.
Qed.

(** C7. An exception raised in the [try] statement (loading,
    preprocessing, inference, label lookup) is caught: "Error: " and
    its text go to standard error and the status is 1. Every run ends
    in one of three ways: success; a missing file, reported on standard
    output; an exception, reported on standard error. *)
Theorem exceptions_go_to_stderr files args :
  (is_Some (files (model args)) →
   is_Some (files (image args)) →
   ∀ w e, classify (model args) (image args) (checked files args) = (w, Abrupt e) →
     run files args =
       {| out := stdout w; err := "Error: " +:+ exn_msg e +:+ nl;
          status := 1; calls := trace w |}) ∧
  ((status (run files args) = 0 ∧ err (run files args) = "") ∨
   (status (run files args) = 1 ∧ err (run files args) = "" ∧
    (out (run files args) = "Model not found: " +:+ model args +:+ nl ∨
     out (run files args) = "Image not found: " +:+ image args +:+ nl)) ∨
   (status (run files args) = 1 ∧
    ∃ e, err (run files args) = "Error: " +:+ exn_msg e +:+ nl)).
Proof.
  split.
  - intros Hmodel Himage w e Hrun.
    by rewrite (run_checked files args Hmodel Himage w _ Hrun).
  - destruct (files (model args)) as [m|] eqn:Hmodel;
      [| right; left; rewrite run_model_missing by done; auto].
    destruct (files (image args)) as [i|] eqn:Himage;
      [| right; left; rewrite run_image_missing by (by rewrite ?Hmodel); auto].
    destruct (classify (model args) (image args) (checked files args))
      as [w c] eqn:Hrun.
    rewrite (run_checked files args) with (w := w) (c := c)
      by (by rewrite ?Hmodel, ?Himage).
    destruct (quiet_classify _ _ _ _ _ Hrun) as (_ & _ & Hexit).
    destruct c as [[] | e | n]; [by left | right; right; eauto | by destruct (Hexit n)].
Qed.
End Failures.

Lemma model_not_found_witness :
  run (RT := Demo.runtime legacy) Demo.files (Demo.args "missing.tflite" "grey.png") =
    {| out := "Model not found: missing.tflite" +:+ nl;
       err := "";
       status := 1;
       calls := [Stat "missing.tflite"] |}.
Proof.
  apply (model_not_found (RT := Demo.runtime legacy)
           Demo.files (Demo.args "missing.tflite" "grey.png")).
  reflexivity.
Defined.

Lemma image_not_found_witness :
  run (RT := Demo.runtime legacy) Demo.files (Demo.args "rice.tflite" "missing.png") =
    {| out := "Image not found: missing.png" +:+ nl;
       err := "";
       status := 1;
       calls := [Stat "rice.tflite"; Stat "missing.png"] |}.
Proof.
  apply (image_not_found (RT := Demo.runtime legacy)
           Demo.files (Demo.args "rice.tflite" "missing.png")).
  - simpl. eauto.
  - reflexivity.
Defined.

Lemma model_gate_first_witness :
  let r := run (RT := Demo.runtime legacy) Demo.files
             (Demo.args "missing.tflite" "missing.png") in
  out r = "Model not found: missing.tflite" +:+ nl ∧
  err r = "" ∧ status r = 1 ∧ calls r = [Stat "missing.tflite"].
Proof.
  destruct (model_gate_first (RT := Demo.runtime legacy)
              Demo.files (Demo.args "missing.tflite" "missing.png"))
    as (Hout & Herr & Hstatus & Hcalls & _); [reflexivity | reflexivity |].
  repeat split; assumption.
Defined.

(** A model file that is not a model: the run ends on standard error. *)
Lemma exceptions_go_to_stderr_witness :
  run (RT := Demo.runtime legacy) Demo.files (Demo.args "empty.tflite" "grey.png") =
    {| out := "";
       err := "Error: Model provided has no identifier" +:+ nl;
       status := 1;
       calls := [Stat "empty.tflite"; Stat "grey.png"; Open "empty.tflite"] |}.
Proof.
  destruct (exceptions_go_to_stderr (RT := Demo.runtime legacy)
              Demo.files (Demo.args "empty.tflite" "grey.png")) as [Hcaught _].
  apply (Hcaught ltac:(simpl; eauto) ltac:(simpl; eauto)
           (log (Open "empty.tflite")
              (checked Demo.files (Demo.args "empty.tflite" "grey.png")))
           (Exn "ValueError" "Model provided has no identifier")).
  reflexivity.
Defined.

(** ** A successful run *)

Lemma string_app_assoc (a b c : string) : (a +:+ b) +:+ c = a +:+ b +:+ c.
Proof.
  induction a as [|x a IH]; [done |].
  change (String x ((a +:+ b) +:+ c) = String x (a +:+ b +:+ c)).
  by rewrite IH.
Qed.

Section Success.
Context `{RT : Runtime}.

Lemma load_interpreter_normal (w : World) path content o0 o :
  fs w path = Some (File content) →
  tflite_Interpreter content = Ok o0 →
  tflite_allocate_tensors o0 = Ok o →
  load_interpreter path w
    = (set_heap (heap w ++ [o]) (log (Open path) w), Normal (length (heap w))).
Proof.
  intros Hfile Hload Halloc.
  unfold load_interpreter, open_model, new, update, mbind, Py_bind.
  rewrite Hfile, Hload. simpl.
  rewrite list_lookup_middle by done. rewrite Halloc.
  do 2 f_equal.
  rewrite insert_app_r_alt by done. by rewrite Nat.sub_diag.
Qed.

Lemma print_bind {B} s (k : () → Py B) (w : World) :
  (print s ≫= k) w = k () (put_stdout (stdout w +:+ s +:+ nl) w).
Proof. done. Qed.

Lemma stdout_put_stdout s (w : World) : stdout (put_stdout s w) = s.
Proof. done. Qed.

Lemma put_stdout_put_stdout s s' (w : World) :
  put_stdout s (put_stdout s' w) = put_stdout s w.
Proof. done. Qed.

(** What the run prints when the model and the image are valid: the
    report, if the arg-max is a position of the label table. *)
Lemma run_inference files args scores :
  inference files args scores →
  scores ≠ [] →
  ∃ pred confidence,
    np.argmax scores = Ok pred ∧
    np.max scores = Ok confidence ∧
    first_max scores pred confidence ∧
    ∀ name, classes !! pred = Some name →
      run files args =
        {| out := report (image args) name
                    (format_2f (np.scalar_mul np_promotion confidence 100));
           err := "";
           status := 0;
           calls := [Stat (model args); Stat (image args);
                     Open (model args); Open (image args)] |}.
Proof.
  intros [] Hne.
  set (w1 := set_heap [o] (log (Open (model args)) (checked files args))).
  set (w2 := log (Open (image args)) w1).
  set (w3 := set_heap (<[0%nat:=o2]> (heap w2)) w2).
  destruct (predict_first_max w2 0%nat (tensor_of img default_target_size)
              o o1 o2 d_in d_out scores rest)
    as (pred & confidence & Hpredict & Harg & Hmax & Hfm); try done.
  exists pred, confidence. split_and!; [done | done | done |].
  intros name Hname.
  set (pct := format_2f (np.scalar_mul np_promotion confidence 100)).
  assert (Hrun : classify (model args) (image args) (checked files args)
                 = (put_stdout (report (image args) name pct) w3, Normal ())).
  { unfold classify.
    erewrite bind_normal; [| by eapply load_interpreter_normal].
    erewrite bind_normal; [| by eapply load_single_image_normal].
    erewrite bind_normal; [| exact Hpredict].
    cbv beta iota.
    repeat rewrite print_bind, ?stdout_put_stdout, ?put_stdout_put_stdout.
    unfold getitem. rewrite Hname. simpl lift. rewrite ret_bind.
    rewrite print_bind, stdout_put_stdout, put_stdout_put_stdout.
    unfold print. rewrite stdout_put_stdout, put_stdout_put_stdout.
    do 2 f_equal. change (stdout w3) with "". unfold report.
    by rewrite !string_app_assoc. }
  rewrite (run_checked files args) with (w := put_stdout (report (image args) name pct) w3)
                                         (c := Normal ());
    [done | by rewrite Hmodel | by rewrite Himage | done].
Qed.

(** A score between 0 and 1 prints as a percentage between 0.00 and
    100.00, whichever way NumPy types the product: the text is within
    half a hundredth, and the rounding of the product, of the score
    times 100. The negative zero keeps its sign. *)
Lemma percent_in_range (p : promotion) (confidence : float) :
  in_unit_interval confidence →
  (confidence = NegZero ∧
   format_2f (np.scalar_mul p confidence 100) = "-0.00") ∨
  ∃ c n, confidence = Fin c ∧ 0 ≤ n ≤ 10000 ∧
         format_2f (np.scalar_mul p confidence 100) = two_decimals n ∧
         2 * Z.abs (n * 2 ^ ulp_exp - 10000 * c) ≤ 2 ^ ulp_exp + 100 * 2 ^ 1057.
Proof.
  intros [H0 H1].
  assert (HP : 0 < 2 ^ ulp_exp) by (by apply Z.pow_pos_nonneg).
  destruct confidence as [|[|]|c|]; try done.
  2:{ left. split; [done |]. by destruct p; vm_compute. }
  right.
  unfold float_of_Z, float_le in H0, H1. cbn [units] in H0, H1.
  apply Z.leb_le in H0, H1.
  assert (∃ k, np.scalar_mul p (Fin c) 100 = Fin k ∧ 0 ≤ k ≤ 100 * 2 ^ ulp_exp ∧
               2 * Z.abs (k - 100 * c) ≤ 2 ^ 1057)
    as (k & -> & Hk & Hnear).
  { assert (Hplace32 : place binary32 (100 * 2 ^ ulp_exp) = 1057) by (by vm_compute).
    assert (Hplace64 : place binary64 (100 * 2 ^ ulp_exp) = 1028) by (by vm_compute).
    assert (Hpow : 2 ^ 1028 ≤ 2 ^ 1057) by (apply Z.pow_le_mono_r; lia).
    unfold np.scalar_mul, float_mul, float_of_Z. cbn [units signbit].
    rewrite (proj2 (Z.ltb_ge c 0)), (proj2 (Z.ltb_ge (100 * 2 ^ ulp_exp) 0)) by lia.
    cbn [xorb].
    set (P := 2 ^ ulp_exp) in *.
    destruct p.
    - destruct (round_near binary64 (c * (100 * P)) P (100 * P)) as (k & -> & Hk & Herr);
        [lia | done | by vm_compute | nia |].
      exists k. split; [done |]. split; [lia |].
      rewrite Hplace64 in Herr.
      replace (k * P - c * (100 * P)) with ((k - 100 * c) * P) in Herr by lia.
      rewrite Z.abs_mul, (Z.abs_eq P) in Herr by lia. nia.
    - destruct (round_near binary32 (c * (100 * P)) P (100 * P)) as (k & -> & Hk & Herr);
        [lia | done | by vm_compute | nia |].
      exists k. split; [done |]. split; [lia |].
      rewrite Hplace32 in Herr.
      replace (k * P - c * (100 * P)) with ((k - 100 * c) * P) in Herr by lia.
      rewrite Z.abs_mul, (Z.abs_eq P) in Herr by lia. nia. }
  exists c, (rne (k * 100) (2 ^ ulp_exp)).
  split; [done |]. split; [| split].
  - split; [apply rne_ge | apply rne_le]; lia.
  - unfold format_2f. rewrite Z.abs_eq by lia.
    destruct (Z.ltb_spec k 0); [lia | done].
  - pose proof (rne_error (k * 100) (2 ^ ulp_exp) HP) as Herr.
    lia.
Qed.

(** C4, as the code has it. With a valid model and image and five
    scores, the run ends with status 0, nothing on standard error, and
    on standard output the report: the image path, the label at the
    arg-max position of the table, and the greatest score times 100
    with two decimals. When the greatest score lies between 0 and 1 the
    percentage lies between 0.00 and 100.00, within half a hundredth
    (and the rounding of the product) of the score times 100; the one
    exception is a greatest score of negative zero, which is printed as
    -0.00. *)
Theorem success_report files args scores :
  inference files args scores →
  length scores = 5%nat →
  ∃ pred confidence name,
    np.argmax scores = Ok pred ∧
    np.max scores = Ok confidence ∧
    classes !! pred = Some name ∧
    run files args =
      {| out := report (image args) name
                  (format_2f (np.scalar_mul np_promotion confidence 100));
         err := "";
         status := 0;
         calls := [Stat (model args); Stat (image args);
                   Open (model args); Open (image args)] |} ∧
    (in_unit_interval confidence →
     (confidence = NegZero ∧
      format_2f (np.scalar_mul np_promotion confidence 100) = "-0.00") ∨
     ∃ c n, confidence = Fin c ∧ 0 ≤ n ≤ 10000 ∧
            format_2f (np.scalar_mul np_promotion confidence 100) = two_decimals n ∧
            2 * Z.abs (n * 2 ^ ulp_exp - 10000 * c) ≤ 2 ^ ulp_exp + 100 * 2 ^ 1057).
Proof.
  intros Hvalid Hlen.
  destruct (run_inference files args scores Hvalid)
    as (pred & confidence & Harg & Hmax & Hfm & Hrun); [by destruct scores |].
  pose proof (first_max_lt_length _ _ _ Hfm) as Hlt.
  destruct (classes !! pred) as [name|] eqn:Hname.
  2:{ apply lookup_ge_None in Hname. simpl in Hname. lia. }
  exists pred, confidence, name.
  split_and!; [done | done | done | by apply Hrun |].
  apply percent_in_range.
Qed.
End Success.

Lemma string_app_inv_head (a x y : string) : a +:+ x = a +:+ y → x = y.
Proof.
  induction a as [|c a IH]; [done |].
  change (String c (a +:+ x) = String c (a +:+ y) → x = y).
  intros [= H]. auto.
Qed.

Lemma string_prefix_app (s x : string) : String.prefix s (s +:+ x) = true.
Proof.
  induction s as [|c s IH]; [by destruct x |].
  change (String.prefix (String c s) (String c (s +:+ x)) = true).
  simpl. by destruct (Ascii.ascii_dec c c).
Qed.

Lemma whole_part_in_range_complete text n t :
  0 ≤ n ≤ 10000 → text = two_decimals n +:+ t → whole_part_in_range text = true.
Proof.
  intros Hn ->. unfold whole_part_in_range, two_decimals.
  apply existsb_exists. exists (Z.to_nat (n / 100)). split.
  - apply in_seq.
    assert (0 ≤ n / 100 ≤ 100) by (split; [apply Z.div_pos | apply Z.div_le_upper_bound]; lia).
    lia.
  - rewrite Z2Nat.id by (apply Z.div_pos; lia).
    rewrite <- (string_app_assoc (str_of_Z (n / 100)) "."), string_app_assoc.
    apply string_prefix_app.
Qed.

(** A product of two integers that fits the format is exact, and an
    integer prints with two zero decimals. *)
Lemma round_exact f m d :
  0 < d → 0 ≤ smin f → in_format f (Fin m) = true →
  round f false (m * d) d = Fin m.
Proof.
  intros Hd Hs Hm.
  unfold in_format in Hm. apply andb_true_iff in Hm as [Hmod Hovf].
  apply Z.eqb_eq in Hmod. apply Z.ltb_lt in Hovf.
  assert (Hk : round_fin f (m * d) d = m).
  { unfold round_fin.
    rewrite (Z.abs_mul m d), (Z.abs_eq d), Z.div_mul, Z.sgn_mul, (Z.sgn_pos d),
      Z.mul_1_r by lia.
    set (s := place f (Z.abs m)) in *.
    assert (0 < 2 ^ s) by (apply Z.pow_pos_nonneg; [lia | by apply place_nonneg]).
    apply Z.mod_divide in Hmod as [c Hc]; [| lia].
    replace (Z.abs m * d) with (c * (d * 2 ^ s)) by (rewrite Hc; lia).
    rewrite rne_exact by lia. rewrite <- Hc.
    destruct (Z.sgn_spec m) as [[? ->] | [[<- ->] | [? ->]]]; lia. }
  rewrite round_false, Hk. case_match; [lia | done].
Qed.

Lemma float_mul_of_Z f a b :
  0 ≤ a → 0 ≤ b →
  0 ≤ smin f → in_format f (float_of_Z (a * b)) = true →
  float_mul f (float_of_Z a) (float_of_Z b) = float_of_Z (a * b).
Proof.
  intros Ha Hb Hs Hab. unfold float_mul, float_of_Z in *. cbn [units signbit].
  assert (0 < 2 ^ ulp_exp) by (by apply Z.pow_pos_nonneg).
  rewrite (proj2 (Z.ltb_ge (a * 2 ^ ulp_exp) 0)),
    (proj2 (Z.ltb_ge (b * 2 ^ ulp_exp) 0)) by nia.
  cbn [xorb].
  replace (a * 2 ^ ulp_exp * (b * 2 ^ ulp_exp))
    with (a * b * 2 ^ ulp_exp * 2 ^ ulp_exp) by lia.
  apply round_exact; [by apply Z.pow_pos_nonneg | done | done].
Qed.

Lemma format_2f_of_Z n : 0 ≤ n → format_2f (float_of_Z n) = two_decimals (n * 100).
Proof.
  intros Hn. unfold format_2f, float_of_Z.
  assert (0 < 2 ^ ulp_exp) by (by apply Z.pow_pos_nonneg).
  destruct (Z.ltb_spec (n * 2 ^ ulp_exp) 0); [nia |].
  rewrite Z.abs_eq by lia.
  replace (n * 2 ^ ulp_exp * 100) with (n * 100 * 2 ^ ulp_exp) by lia.
  by rewrite rne_exact.
Qed.

Lemma Demo_logits_valid p :
  inference (RT := Demo.runtime p) Demo.files
    (Demo.args "logits.tflite" "grey.png") Demo.logits.
Proof.
  eapply (inference_intro (RT := Demo.runtime p) _ _ _
            [x00; x00; x00; x00; x05; x00] ([x02; x02] ++ replicate 12 x80)
            _ _ _ _ Demo.grey); reflexivity.
Qed.

(** C4, as stated, fails: a model whose greatest score is 5 is reported
    with a confidence of 500.00%. *)
Lemma report_out_of_range :
  inference (RT := Demo.runtime legacy) Demo.files
    (Demo.args "logits.tflite" "grey.png") Demo.logits ∧
  length Demo.logits = 5%nat ∧
  run (RT := Demo.runtime legacy) Demo.files (Demo.args "logits.tflite" "grey.png") =
    {| out := report "grey.png" "Basmati" "500.00";
       err := "";
       status := 0;
       calls := [Stat "logits.tflite"; Stat "grey.png";
                 Open "logits.tflite"; Open "grey.png"] |} ∧
  ¬ ∃ name n,
      name ∈ classes ∧ 0 ≤ n ≤ 10000 ∧
      out (run (RT := Demo.runtime legacy) Demo.files
             (Demo.args "logits.tflite" "grey.png"))
        = report "grey.png" name (two_decimals n).
Proof.
  assert (Hrun :
    run (RT := Demo.runtime legacy) Demo.files (Demo.args "logits.tflite" "grey.png") =
      {| out := report "grey.png" "Basmati" "500.00";
         err := "";
         status := 0;
         calls := [Stat "logits.tflite"; Stat "grey.png";
                   Open "logits.tflite"; Open "grey.png"] |}).
  { destruct (run_inference (RT := Demo.runtime legacy) Demo.files
                (Demo.args "logits.tflite" "grey.png") Demo.logits
                (Demo_logits_valid legacy))
      as (pred & confidence & Harg & Hmax & _ & Hrun); [discriminate |].
    assert (Hpred : np.argmax Demo.logits = Ok 3%nat) by (by vm_compute).
    assert (Hconf : np.max Demo.logits = Ok (float_of_Z 5)) by (by vm_compute).
    rewrite Hpred in Harg. rewrite Hconf in Hmax.
    injection Harg as <-. injection Hmax as <-.
    rewrite (Hrun "Basmati" eq_refl).
    change (np.scalar_mul np_promotion (float_of_Z 5) 100)
      with (float_mul binary64 (float_of_Z 5) (float_of_Z 100)).
    rewrite float_mul_of_Z; [| lia | lia | done | by vm_compute].
    rewrite format_2f_of_Z by lia.
    reflexivity. }
  split_and!; [apply Demo_logits_valid | done | done |].
  intros (name & n & Hname & Hn & Hout). rewrite Hrun in Hout.
  cbn [out] in Hout. unfold report in Hout.
  repeat apply string_app_inv_head in Hout.
  assert (name = "Basmati") as ->.
  { unfold classes in Hname.
    rewrite !elem_of_cons, elem_of_nil in Hname.
    destruct Hname as [-> | [-> | [-> | [-> | [-> | []]]]]];
      try discriminate Hout; done. }
  do 2 apply string_app_inv_head in Hout.
  apply whole_part_in_range_complete in Hout; [| done].
  revert Hout. by vm_compute.
Qed.

Lemma Demo_rice_valid p :
  inference (RT := Demo.runtime p) Demo.files
    (Demo.args "rice.tflite" "grey.png") (Demo.scores_of Demo.rice).
Proof.
  eapply (inference_intro (RT := Demo.runtime p) _ _ _
            [x04; x02; x01; x0e; x00; x00] ([x02; x02] ++ replicate 12 x80)
            _ _ _ _ Demo.grey); reflexivity.
Qed.

Lemma success_report_witness :
  ∃ pred confidence name,
    np.argmax (Demo.scores_of Demo.rice) = Ok pred ∧
    np.max (Demo.scores_of Demo.rice) = Ok confidence ∧
    classes !! pred = Some name ∧
    run (RT := Demo.runtime nep50) Demo.files (Demo.args "rice.tflite" "grey.png") =
      {| out := report "grey.png" name
                  (format_2f (np.scalar_mul nep50 confidence 100));
         err := "";
         status := 0;
         calls := [Stat "rice.tflite"; Stat "grey.png";
                   Open "rice.tflite"; Open "grey.png"] |} ∧
    (in_unit_interval confidence →
     (confidence = NegZero ∧
      format_2f (np.scalar_mul nep50 confidence 100) = "-0.00") ∨
     ∃ c n, confidence = Fin c ∧ 0 ≤ n ≤ 10000 ∧
            format_2f (np.scalar_mul nep50 confidence 100) = two_decimals n ∧
            2 * Z.abs (n * 2 ^ ulp_exp - 10000 * c) ≤ 2 ^ ulp_exp + 100 * 2 ^ 1057).
Proof.
  apply (success_report (RT := Demo.runtime nep50) Demo.files
           (Demo.args "rice.tflite" "grey.png") (Demo.scores_of Demo.rice)).
  - apply Demo_rice_valid.
  - reflexivity.
Defined.

(** ** The failures the specification lists

    Each of them raises in the [try] statement, so each ends on standard
    error with status 1. *)

Section Cases.
Context `{RT : Runtime}.
Variables (files : string → option node) (args : Namespace).

(** A file that is not a model. *)
Lemma classify_malformed_model content e :
  files (model args) = Some (File content) →
  tflite_Interpreter content = Raise e →
  classify (model args) (image args) (checked files args)
    = (log (Open (model args)) (checked files args), Abrupt e).
Proof.
  intros Hmodel Hload.
  unfold classify, load_interpreter, open_model, mbind, Py_bind.
  change (fs (checked files args) (model args)) with (files (model args)).
  by rewrite Hmodel, Hload.
Qed.

Section Loaded.
Variables (model_content : list byte) (o0 o : Interpreter).
Hypothesis Hmodel : files (model args) = Some (File model_content).
Hypothesis Hload : tflite_Interpreter model_content = Ok o0.
Hypothesis Halloc : tflite_allocate_tensors o0 = Ok o.

(** The world once the model is loaded. *)
Let w1 : World := set_heap [o] (log (Open (model args)) (checked files args)).

Lemma classify_loaded :
  classify (model args) (image args) (checked files args)
    = ((load_single_image (image args) default_target_size ≫= λ img,
        tflite_fp32_predict 0%nat img ≫= λ '(pred, confidence),
        print (nl +:+ str_mul "=" 60);;
        print "RICE GRAIN CLASSIFICATION RESULTS";;
        print (str_mul "=" 60);;
        print ("Image: " +:+ image args);;
        print (str_mul "-" 60);;
        name ← lift (getitem classes pred);
        print ("Prediction: " +:+ name +:+ " (" +:+
               format_2f (np.scalar_mul np_promotion confidence 100)
               +:+ "% confidence)");;
        print (str_mul "=" 60)) w1).
Proof.
  unfold classify.
  by erewrite bind_normal; [| by eapply load_interpreter_normal].
Qed.

(** A file that is not an image. *)
Lemma classify_unreadable_image content e :
  files (image args) = Some (File content) →
  pil_open content = Raise e →
  classify (model args) (image args) (checked files args)
    = (log (Open (image args)) w1, Abrupt e).
Proof.
  intros Himage Hdecode. rewrite classify_loaded.
  unfold load_single_image, load_img, read_file, mbind, Py_bind.
  change (fs w1 (image args)) with (files (image args)).
  by rewrite Himage, Hdecode.
Qed.

Section Decoded.
Variables (image_content : list byte) (img : Image) (d_in : tensor_details).
Hypothesis Himage : files (image args) = Some (File image_content).
Hypothesis Hdecode : pil_open image_content = Ok img.
Hypothesis Hin : tflite_get_input_details o !! 0%nat = Some d_in.

(** The world once the image is preprocessed. *)
Let w2 : World := log (Open (image args)) w1.

Lemma classify_decoded :
  classify (model args) (image args) (checked files args)
    = ((tflite_fp32_predict 0%nat (tensor_of img default_target_size)
        ≫= λ '(pred, confidence),
        print (nl +:+ str_mul "=" 60);;
        print "RICE GRAIN CLASSIFICATION RESULTS";;
        print (str_mul "=" 60);;
        print ("Image: " +:+ image args);;
        print (str_mul "-" 60);;
        name ← lift (getitem classes pred);
        print ("Prediction: " +:+ name +:+ " (" +:+
               format_2f (np.scalar_mul np_promotion confidence 100)
               +:+ "% confidence)");;
        print (str_mul "=" 60)) w2).
Proof.
  rewrite classify_loaded.
  by erewrite bind_normal; [| by eapply load_single_image_normal].
Qed.

(** A tensor the model does not accept (a shape mismatch). *)
Lemma classify_rejected_tensor e :
  tflite_set_tensor o (index d_in) (tensor_of img default_target_size) = Raise e →
  classify (model args) (image args) (checked files args) = (w2, Abrupt e).
Proof.
  intros Hset. rewrite classify_decoded.
  assert (Hheap : heap w2 !! 0%nat = Some o) by done.
  apply bind_abrupt. unfold tflite_fp32_predict.
  rewrite !(bind_normal _ _ _ _ _ (get_normal _ _ _ _ Hheap)).
  unfold getitem. rewrite Hin. simpl lift. rewrite ret_bind.
  apply bind_abrupt. by apply update_abrupt with o.
Qed.

(** A forward pass that fails in the runtime. *)
Lemma classify_failed_invoke o1 e :
  tflite_set_tensor o (index d_in) (tensor_of img default_target_size) = Ok o1 →
  tflite_invoke o1 = Raise e →
  classify (model args) (image args) (checked files args)
    = (set_heap [o1] w2, Abrupt e).
Proof.
  intros Hset Hinvoke. rewrite classify_decoded.
  assert (Hheap : heap w2 !! 0%nat = Some o) by done.
  apply bind_abrupt. unfold tflite_fp32_predict.
  rewrite !(bind_normal _ _ _ _ _ (get_normal _ _ _ _ Hheap)).
  unfold getitem. rewrite Hin. simpl lift. rewrite ret_bind.
  rewrite (bind_normal _ _ _ _ _ (update_normal _ _ _ _ _ Hheap Hset)).
  apply bind_abrupt. by apply update_abrupt with o1.
Qed.

End Decoded.
End Loaded.
End Cases.

(** ** Determinism *)

Section Determinism.
Context `{RT : Runtime}.
Variable args : Namespace.

Lemma blind_ret {A} (a : A) : blind args (mret a).
Proof. by intros w1 w2 Hw. Qed.

Lemma blind_raise {A} e : blind args (raise (A:=A) e).
Proof. by intros w1 w2 Hw. Qed.

Lemma blind_sys_exit {A} n : blind args (sys_exit (A:=A) n).
Proof. by intros w1 w2 Hw. Qed.

Lemma blind_lift {A} (r : result A) : blind args (lift r).
Proof. destruct r; [apply blind_ret | apply blind_raise]. Qed.

Lemma blind_bind {A B} (m : Py A) (k : A → Py B) :
  blind args m → (∀ a, blind args (k a)) → blind args (m ≫= k).
Proof.
  intros Hm Hk w1 w2 Hw. unfold mbind, Py_bind.
  destruct (Hm w1 w2 Hw) as [Hw' Hc].
  destruct (m w1) as [w1' c1], (m w2) as [w2' c2]. simpl in *. subst c2.
  destruct c1 as [a | e | n]; [by apply Hk | done | done].
Qed.

Lemma blind_try_except {A} (body : Py A) (handler : exn → Py A) :
  blind args body → (∀ e, blind args (handler e)) →
  blind args (try_except body handler).
Proof.
  intros Hm Hk w1 w2 Hw. unfold try_except.
  destruct (Hm w1 w2 Hw) as [Hw' Hc].
  destruct (body w1) as [w1' c1], (body w2) as [w2' c2]. simpl in *. subst c2.
  destruct c1 as [a | e | n]; [done | by apply Hk | done].
Qed.

Lemma blind_print s : blind args (print s).
Proof.
  intros w1 w2 (? & ? & Hout & ? & ? & ?). unfold print, agree. simpl.
  rewrite Hout. done.
Qed.

Lemma blind_print_stderr s : blind args (print_stderr s).
Proof.
  intros w1 w2 (? & ? & ? & Herr & ? & ?). unfold print_stderr, agree. simpl.
  rewrite Herr. done.
Qed.

Lemma blind_exists path :
  path = model args ∨ path = image args → blind args (os_path_exists path).
Proof.
  intros Hpath w1 w2 (Hm & Hi & ? & ? & Htrace & ?).
  unfold os_path_exists, agree. simpl. rewrite Htrace.
  by destruct Hpath as [-> | ->]; rewrite ?Hm, ?Hi.
Qed.

Lemma blind_read_file path :
  path = model args ∨ path = image args → blind args (read_file path).
Proof.
  intros Hpath w1 w2 (Hm & Hi & ? & ? & Htrace & ?).
  unfold read_file, agree. simpl. rewrite Htrace.
  by destruct Hpath as [-> | ->]; rewrite ?Hm, ?Hi.
Qed.

Lemma blind_open_model path :
  path = model args ∨ path = image args → blind args (open_model path).
Proof.
  intros Hpath w1 w2 (Hm & Hi & ? & ? & Htrace & ?).
  unfold open_model, agree. simpl. rewrite Htrace.
  by destruct Hpath as [-> | ->]; rewrite ?Hm, ?Hi.
Qed.

Lemma blind_new o : blind args (new o).
Proof.
  intros w1 w2 (? & ? & ? & ? & ? & Hheap). unfold new, agree. simpl.
  rewrite Hheap. done.
Qed.

Lemma blind_get {A} h (f : Interpreter → A) : blind args (get h f).
Proof.
  intros w1 w2 Hw. pose proof Hw as (? & ? & ? & ? & ? & Hheap).
  unfold get. rewrite Hheap. by case_match.
Qed.

Lemma blind_update h f : blind args (update h f).
Proof.
  intros w1 w2 Hw. pose proof Hw as (? & ? & ? & ? & ? & Hheap).
  unfold update. rewrite Hheap. by repeat case_match.
Qed.

Lemma blind_load_interpreter : blind args (load_interpreter (model args)).
Proof.
  unfold load_interpreter.
  apply blind_bind; [apply blind_open_model; by left | intros content].
  repeat first
    [ apply blind_ret | apply blind_lift | apply blind_new | apply blind_update
    | apply blind_bind; [| intros ?] ].
Qed.

Lemma blind_load_single_image size :
  blind args (load_single_image (image args) size).
Proof.
  unfold load_single_image, load_img.
  apply blind_bind; [| intros img; apply blind_ret].
  apply blind_bind; [apply blind_read_file; by right | intros content].
  repeat first
    [ apply blind_ret | apply blind_lift | apply blind_bind; [| intros ?] ].
Qed.

Lemma blind_predict h t : blind args (tflite_fp32_predict h t).
Proof.
  unfold tflite_fp32_predict.
  repeat first
    [ apply blind_ret | apply blind_lift | apply blind_get | apply blind_update
    | apply blind_bind; [| intros ?] ].
Qed.

Lemma blind_classify : blind args (classify (model args) (image args)).
Proof.
  unfold classify.
  apply blind_bind; [apply blind_load_interpreter | intros h].
  apply blind_bind; [apply blind_load_single_image | intros t].
  apply blind_bind; [apply blind_predict | intros [pred confidence]].
  repeat first
    [ apply blind_print | apply blind_lift | apply blind_bind; [| intros ?] ].
Qed.

(** A gate: a message and an exit, or nothing. *)
Lemma blind_gate (found : bool) (message : string) :
  blind args (if negb found then print message;; sys_exit 1 else mret ()).
Proof.
  destruct found; simpl; [apply blind_ret |].
  apply blind_bind; [apply blind_print | intros _; apply blind_sys_exit].
Qed.

Lemma blind_main : blind args (__main__ args).
Proof.
  unfold __main__.
  apply blind_bind; [apply blind_exists; by left | intros model_exists].
  apply blind_bind; [apply blind_gate | intros _].
  apply blind_bind; [apply blind_exists; by right | intros image_exists].
  apply blind_bind; [apply blind_gate | intros _].
  apply blind_try_except; [apply blind_classify | intros e].
  apply blind_bind; [apply blind_print_stderr | intros _; apply blind_sys_exit].
Qed.

(** C8. The outcome of a run (what it prints, its exit status, what it
    asks of the file system) is a function of the model file and the
    image file: two runs that find the same two files end the same
    way, with the same predicted class and the same confidence,
    whatever else differs between their file systems. *)
Theorem run_deterministic (files1 files2 : string → option node) :
  files1 (model args) = files2 (model args) →
  files1 (image args) = files2 (image args) →
  run files1 args = run files2 args.
Proof.
  intros Hmodel Himage.
  assert (Hboot : agree args (boot files1) (boot files2)) by done.
  destruct (blind_main _ _ Hboot) as [(_ & _ & Hout & Herr & Htrace & _) Hc].
  unfold run.
  destruct (__main__ args (boot files1)) as [w1 c1],
           (__main__ args (boot files2)) as [w2 c2].
  simpl in *. subst c2. rewrite Hout, Herr, Htrace. done.
Qed.
End Determinism.

Lemma run_deterministic_witness :
  run (RT := Demo.runtime legacy) Demo.files (Demo.args "rice.tflite" "grey.png")
  = run (RT := Demo.runtime legacy) Demo.more_files (Demo.args "rice.tflite" "grey.png").
Proof.
  apply (run_deterministic (RT := Demo.runtime legacy)
           (Demo.args "rice.tflite" "grey.png") Demo.files Demo.more_files);
    reflexivity.
Defined.

(** * More of the script *)

(** ** Scaling is lossless *)

Lemma rne_unique n d m : 0 < d → 2 * Z.abs (n - m * d) < d → rne n d = m.
Proof.
  intros Hd Hm. unfold rne.
  pose proof (Z.div_mod n d ltac:(lia)) as Hdm.
  pose proof (Z.mod_pos_bound n d Hd) as Hr.
  assert (n / d = m ∨ n / d = m - 1) as [Hq | Hq] by nia;
    repeat case_match; nia.
Qed.

(** A scaled channel, to within 2^-24 of the quotient by 255. *)
Lemma scaled_near b :
  ∃ k, scaled b = Fin k ∧
       2 * Z.abs (255 * k - intensity b * 2 ^ ulp_exp) ≤ 255 * 2 ^ 1051.
Proof.
  unfold scaled, float_of_byte, float_of_Z, float_div. fold (intensity b).
  cbn [units signbit].
  assert (0 ≤ intensity b ≤ 255)
    by (unfold intensity; pose proof (Byte.to_N_bounded b); lia).
  assert (HP : 0 < 2 ^ ulp_exp) by (by apply Z.pow_pos_nonneg).
  set (P := 2 ^ ulp_exp) in *. set (V := intensity b) in *.
  destruct (Z.eqb_spec (255 * P) 0) as [? | _]; [lia |].
  rewrite (proj2 (Z.ltb_ge (V * P) 0)), (proj2 (Z.ltb_ge (255 * P) 0)) by nia.
  cbn [xorb].
  rewrite Z.sgn_pos, Z.abs_eq by lia.
  destruct (round_near binary32 (1 * (V * P) * P) (255 * P) P) as (k & -> & Hk & Herr);
    [lia | done | by vm_compute | nia |].
  exists k. split; [done |].
  replace (place binary32 P) with 1051 in Herr by (by vm_compute).
  replace (k * (255 * P) - 1 * (V * P) * P) with ((255 * k - V * P) * P) in Herr by lia.
  rewrite Z.abs_mul, (Z.abs_eq P) in Herr by lia.
  nia.
Qed.

Lemma unscale_scaled b : unscale (scaled b) = Some (intensity b).
Proof.
  destruct (scaled_near b) as (k & -> & Hk). unfold unscale. f_equal.
  apply rne_unique; [by apply Z.pow_pos_nonneg |].
  assert (255 * 2 ^ 1051 < 2 ^ ulp_exp) by (by vm_compute).
  lia.
Qed.

Section Scaling.
Context `{RT : Runtime}.

(** X1. Whatever the target size (height, width), both positive as
    PIL requires, a decodable image becomes a tensor of shape
    (1, height, width, 3) of binary32 numbers between 0 and 1. *)
Theorem load_single_image_target_size (w : World) (img_path : string)
    (height width : nat) (content : list byte) (img : Image) :
  (0 < height)%nat → (0 < width)%nat →
  fs w img_path = Some (File content) →
  pil_open content = Ok img →
  ∃ t, load_single_image img_path (height, width) w
         = (log (Open img_path) w, Normal t) ∧
       np.has_shape t 1 height width 3 ∧
       Forall (λ x, in_format binary32 x = true) (np.ravel t) ∧
       Forall in_unit_interval (np.ravel t).
Proof.
  intros _ _ Hfile Hdecode. exists (tensor_of img (height, width)).
  split_and!.
  - by apply load_single_image_normal with content.
  - apply tensor_of_shape.
  - apply tensor_of_scalars. intros b. apply scaled_spec.
  - apply tensor_of_scalars. intros b. apply scaled_spec.
Qed.

(** X2. Preprocessing loses nothing: multiplying a scalar of the tensor
    by 255 and rounding gives back the intensity of the pixel channel it
    comes from. *)
Theorem load_single_image_lossless (w : World) (img_path : string)
    (height width : nat) (content : list byte) (img : Image) :
  (0 < height)%nat → (0 < width)%nat →
  fs w img_path = Some (File content) →
  pil_open content = Ok img →
  ∃ t, load_single_image img_path (height, width) w
         = (log (Open img_path) w, Normal t) ∧
       ∀ (y x c : nat) (b : byte),
         (y < height)%nat → (x < width)%nat →
         channel c (getpixel (fit img (height, width)) x y) = Some b →
         ∃ v, np.item t 0 y x c = Some v ∧ unscale v = Some (intensity b).
Proof.
  intros _ _ Hfile Hdecode. exists (tensor_of img (height, width)).
  split; [by apply load_single_image_normal with content |].
  intros y x c b Hy Hx Hc. exists (scaled b).
  split; [by apply tensor_of_lookup | apply unscale_scaled].
Qed.

End Scaling.

(** X3. Division by 255.0 in binary32 keeps the order of the
    intensities, strictly: a brighter channel gives a greater scalar and
    equal scalars come from equal channels. *)
Theorem scaling_keeps_order (b1 b2 : byte) :
  (intensity b1 ≤ intensity b2 ↔
   float_le (float_div binary32 (float_of_byte b1) (float_of_Z 255))
            (float_div binary32 (float_of_byte b2) (float_of_Z 255)) = true) ∧
  (float_div binary32 (float_of_byte b1) (float_of_Z 255)
   = float_div binary32 (float_of_byte b2) (float_of_Z 255) → b1 = b2).
Proof.
  fold (scaled b1) (scaled b2).
  assert (Hinj : scaled b1 = scaled b2 → b1 = b2).
  { intros Heq.
    assert (Hi : Some (intensity b1) = Some (intensity b2))
      by (by rewrite <- !unscale_scaled, Heq).
    injection Hi as Hi. unfold intensity in Hi.
    apply (inj Z.of_N), (f_equal Byte.of_N) in Hi.
    rewrite !Byte.of_to_N in Hi. by injection Hi. }
  split; [| done].
  destruct (scaled_near b1) as (k1 & Hk1 & Herr1).
  destruct (scaled_near b2) as (k2 & Hk2 & Herr2).
  assert (HE : 2 * (255 * 2 ^ 1051) < 2 ^ ulp_exp) by (by vm_compute).
  assert (HP : 0 < 2 ^ ulp_exp) by (by apply Z.pow_pos_nonneg).
  set (P := 2 ^ ulp_exp) in *. set (E := 255 * 2 ^ 1051) in *.
  assert (Hlt : ∀ V1 V2 j1 j2,
            2 * Z.abs (255 * j1 - V1 * P) ≤ E →
            2 * Z.abs (255 * j2 - V2 * P) ≤ E →
            V1 < V2 → j1 < j2).
  { intros V1 V2 j1 j2 H1 H2 HV.
    assert (P ≤ V2 * P - V1 * P) by nia. lia. }
  rewrite Hk1, Hk2. simpl. rewrite Z.leb_le. split; intros Hle.
  - destruct (decide (intensity b1 = intensity b2)) as [Heq | Hne].
    + assert (k1 = k2); [| lia].
      assert (Fin k1 = Fin k2) as Hk; [| by injection Hk].
      rewrite <- Hk1, <- Hk2. f_equal.
      unfold intensity in Heq.
      apply (inj Z.of_N), (f_equal Byte.of_N) in Heq.
      rewrite !Byte.of_to_N in Heq. by injection Heq.
    + assert (k1 < k2); [| lia].
      apply (Hlt (intensity b1) (intensity b2)); [done | done | lia].
  - destruct (decide (intensity b1 ≤ intensity b2)) as [? | Hgt]; [done |].
    assert (k2 < k1); [| lia].
    apply (Hlt (intensity b2) (intensity b1)); [done | done | lia].
Qed.

Lemma load_single_image_target_size_witness :
  ∃ t, load_single_image "grey.png" (3%nat, 5%nat) (Demo.loaded legacy)
         = (log (Open "grey.png") (Demo.loaded legacy), Normal t) ∧
       np.has_shape t 1 3 5 3 ∧
       Forall (λ x, in_format binary32 x = true) (np.ravel t) ∧
       Forall in_unit_interval (np.ravel t).
Proof.
  apply (load_single_image_target_size (RT := Demo.runtime legacy)
           (Demo.loaded legacy) "grey.png" 3 5
           ([x02; x02] ++ replicate 12 x80) Demo.grey);
    [lia | lia | reflexivity | reflexivity].
Defined.

Lemma load_single_image_lossless_witness :
  ∃ t, load_single_image "grey.png" (3%nat, 5%nat) (Demo.loaded legacy)
         = (log (Open "grey.png") (Demo.loaded legacy), Normal t) ∧
       ∀ (y x c : nat) (b : byte),
         (y < 3)%nat → (x < 5)%nat →
         channel c (getpixel (fit (RT := Demo.runtime legacy) Demo.grey (3%nat, 5%nat)) x y)
           = Some b →
         ∃ v, np.item t 0 y x c = Some v ∧ unscale v = Some (intensity b).
Proof.
  apply (load_single_image_lossless (RT := Demo.runtime legacy)
           (Demo.loaded legacy) "grey.png" 3 5
           ([x02; x02] ++ replicate 12 x80) Demo.grey);
    [lia | lia | reflexivity | reflexivity].
Defined.

(** ** The three functions, case by case *)

Section Functions.
Context `{RT : Runtime}.

(** X4. [load_interpreter] opens the model path once and prints nothing,
    success or failure. It returns a handle exactly when the file is
    there, the runtime accepts it and [allocate_tensors] succeeds; the
    handle is new, it refers to the allocated interpreter, and the
    objects that were on the heap stay where they were. *)
Theorem load_interpreter_outcome (w w' : World) (model_path : string)
    (c : completion handle) :
  load_interpreter model_path w = (w', c) →
  fs w' = fs w ∧ stdout w' = stdout w ∧ stderr w' = stderr w ∧
  trace w' = trace w ++ [Open model_path] ∧
  (∀ h o, heap w !! h = Some o → heap w' !! h = Some o) ∧
  match c with
  | Normal h =>
      heap w !! h = None ∧
      ∃ content o0 o,
        fs w model_path = Some (File content) ∧
        tflite_Interpreter content = Ok o0 ∧
        tflite_allocate_tensors o0 = Ok o ∧
        heap w' = heap w ++ [o] ∧
        heap w' !! h = Some o
  | Abrupt e =>
      fs w model_path = None ∨
      fs w model_path = Some Dir ∨
      ∃ content,
        fs w model_path = Some (File content) ∧
        (tflite_Interpreter content = Raise e ∨
         ∃ o0, tflite_Interpreter content = Ok o0 ∧
               tflite_allocate_tensors o0 = Raise e)
  | SysExit _ => False
  end.
Proof.
  unfold load_interpreter, open_model, new, update, mbind, Py_bind.
  destruct (fs w model_path) as [[content|]|] eqn:Hfile.
  - destruct (tflite_Interpreter content) as [o0|e] eqn:Hload; simpl.
    + rewrite list_lookup_middle by done.
      destruct (tflite_allocate_tensors o0) as [o|e] eqn:Halloc; simpl;
        intros [= <- <-]; simpl.
      * rewrite insert_app_r_alt, Nat.sub_diag by done. simpl.
        split_and!; [done | done | done | done | | |].
        -- intros h o' Hh. by apply lookup_app_l_Some.
        -- by apply lookup_ge_None.
        -- exists content, o0, o. split_and!; [done | done | done | done |].
           by apply list_lookup_middle.
      * split_and!; [done | done | done | done | |].
        -- intros h o' Hh. by apply lookup_app_l_Some.
        -- right; right. exists content. split; [done |]. right. eauto.
    + intros [= <- <-]. split_and!; [done | done | done | done | done |].
      right; right. exists content. auto.
  - intros [= <- <-]. split_and!; [done | done | done | done | done |]. auto.
  - intros [= <- <-]. split_and!; [done | done | done | done | done |]. auto.
Qed.


Lemma confined_ret {A} h (a : A) : confined h (mret a).
Proof. by intros w w' c [= <- <-]. Qed.

Lemma confined_lift {A} h (r : result A) : confined h (lift r).
Proof. destruct r; by intros w w' c [= <- <-]. Qed.

Lemma confined_bind {A B} h (m : Py A) (k : A → Py B) :
  confined h m → (∀ a, confined h (k a)) → confined h (m ≫= k).
Proof.
  intros Hm Hk w w' c. unfold mbind, Py_bind.
  destruct (m w) as [w1 [a | e | n]] eqn:Hmw;
    destruct (Hm _ _ _ Hmw) as (? & ? & ? & ? & ? & Hother & Hc).
  - intros Hkw.
    destruct (Hk _ _ _ _ Hkw) as (? & ? & ? & ? & ? & Hother' & ?).
    split_and!; try congruence.
    intros h' Hh'. by rewrite Hother', Hother.
  - by intros [= <- <-].
  - by destruct (Hc n).
Qed.

Lemma confined_get {A} h (f : Interpreter → A) : confined h (get h f).
Proof. intros w w' c. unfold get. by case_match; intros [= <- <-]. Qed.

Lemma confined_update h f : confined h (update h f).
Proof.
  intros w w' c. unfold update.
  repeat case_match; intros [= <- <-]; try done.
  simpl. split_and!; try done.
  - apply length_insert.
  - intros h' Hh'. by apply list_lookup_insert_ne.
Qed.

Lemma confined_predict h t : confined h (tflite_fp32_predict h t).
Proof.
  unfold tflite_fp32_predict.
  repeat first
    [ apply confined_ret | apply confined_lift | apply confined_get
    | apply confined_update | apply confined_bind; [| intros ?] ].
Qed.

(** X6. [tflite_fp32_predict] works on its interpreter and on nothing
    else: it prints nothing, asks nothing of the file system, does not
    exit, and leaves the other objects of the heap as they are. *)
Theorem tflite_fp32_predict_confined (w w' : World) (interpreter : handle)
    (image : array4) (c : completion (nat * float)) :
  tflite_fp32_predict interpreter image w = (w', c) →
  fs w' = fs w ∧ stdout w' = stdout w ∧ stderr w' = stderr w ∧
  trace w' = trace w ∧
  length (heap w') = length (heap w) ∧
  (∀ h', h' ≠ interpreter → heap w' !! h' = heap w !! h') ∧
  ∀ n, c ≠ SysExit n.
Proof.
  apply confined_predict.
Qed.

(** X7. A tensor that the runtime does not accept (a shape mismatch):
    the exception of [set_tensor] leaves [tflite_fp32_predict] before
    the forward pass, and the world, the interpreter included, is as it
    was. *)
Theorem tflite_fp32_predict_rejected (w : World) (interpreter : handle)
    (image : array4) (o : Interpreter) (d_in : tensor_details) (e : exn) :
  heap w !! interpreter = Some o →
  tflite_get_input_details o !! 0%nat = Some d_in →
  tflite_set_tensor o (index d_in) image = Raise e →
  tflite_fp32_predict interpreter image w = (w, Abrupt e).
Proof.
  intros Hheap Hin Hset. unfold tflite_fp32_predict.
  rewrite !(bind_normal _ _ _ _ _ (get_normal _ _ _ _ Hheap)).
  unfold getitem. rewrite Hin. simpl lift. rewrite ret_bind.
  apply bind_abrupt. by apply update_abrupt with o.
Qed.

(** X8. An empty output: when the forward pass leaves no row,
    [output[0]] raises IndexError; when it leaves an empty first row,
    [np.argmax] raises ValueError. Either way the forward pass has run
    and its result stays in the interpreter. *)
Theorem tflite_fp32_predict_empty_output (w : World) (interpreter : handle)
    (image : array4) (o o1 o2 : Interpreter) (d_in d_out : tensor_details)
    (output : array2) :
  heap w !! interpreter = Some o →
  tflite_get_input_details o !! 0%nat = Some d_in →
  tflite_get_output_details o !! 0%nat = Some d_out →
  tflite_set_tensor o (index d_in) image = Ok o1 →
  tflite_invoke o1 = Ok o2 →
  tflite_get_tensor o2 (index d_out) = Ok output →
  head output = None ∨ head output = Some [] →
  tflite_fp32_predict interpreter image w
    = (set_heap (<[interpreter:=o2]> (heap w)) w,
       Abrupt (match output with
               | [] => Exn "IndexError"
                         "index 0 is out of bounds for axis 0 with size 0"
               | _ => Exn "ValueError" "attempt to get argmax of an empty sequence"
               end)).
Proof.
  intros Hheap Hin Hout Hset Hinvoke Hget Hempty.
  assert (Hlt : (interpreter < length (heap w))%nat) by eauto using lookup_lt_Some.
  assert (H1 : heap (set_heap (<[interpreter:=o1]> (heap w)) w) !! interpreter = Some o1)
    by (by apply list_lookup_insert_eq).
  assert (H2 : heap (set_heap (<[interpreter:=o2]> (heap w)) w) !! interpreter = Some o2)
    by (by apply list_lookup_insert_eq).
  unfold tflite_fp32_predict.
  rewrite !(bind_normal _ _ _ _ _ (get_normal _ _ _ _ Hheap)).
  unfold getitem. rewrite Hin, Hout. simpl lift. rewrite ret_bind.
  rewrite (bind_normal _ _ _ _ _ (update_normal _ _ _ _ _ Hheap Hset)).
  rewrite (bind_normal _ _ _ _ _ (update_normal _ _ _ _ _ H1 Hinvoke)).
  rewrite heap_set_heap, set_heap_set_heap, list_insert_insert_eq.
  rewrite ret_bind.
  rewrite (bind_normal _ _ _ _ _ (get_normal _ _ _ _ H2)). unfold id.
  rewrite Hget. simpl lift. rewrite ret_bind.
  destruct output as [|[|x row] rest]; [done | done |].
  by destruct Hempty.
Qed.

End Functions.

(** ** The paths through the [try] statement *)

Section Paths.
Context `{RT : Runtime}.

Lemma report_header path name percent :
  report path name percent
  = header path +:+ "Prediction: " +:+ name +:+ " (" +:+ percent +:+ "% confidence)"
    +:+ nl +:+ str_mul "=" 60 +:+ nl.
Proof. unfold report, header. by rewrite !string_app_assoc. Qed.

(** The five [print]s before the label lookup. *)
Lemma print_header {B} (Image_PATH : string) (k : Py B) (w : World) :
  (print (nl +:+ str_mul "=" 60);;
   print "RICE GRAIN CLASSIFICATION RESULTS";;
   print (str_mul "=" 60);;
   print ("Image: " +:+ Image_PATH);;
   print (str_mul "-" 60);;
   k) w
  = k (put_stdout (stdout w +:+ header Image_PATH) w).
Proof.
  repeat rewrite print_bind, ?stdout_put_stdout, ?put_stdout_put_stdout.
  do 2 f_equal. unfold header. by rewrite !string_app_assoc.
Qed.

(** What [classify] does, stage by stage. *)
Lemma classify_paths (TFLITE_FP32_PATH Image_PATH : string) (w0 w : World)
    (c : completion ()) :
  classify TFLITE_FP32_PATH Image_PATH w0 = (w, c) →
  ∃ w1 c1, load_interpreter TFLITE_FP32_PATH w0 = (w1, c1) ∧
  match c1 with
  | SysExit _ => False
  | Abrupt e => w = w1 ∧ c = Abrupt e
  | Normal tflite_fp32 =>
    ∃ w2 c2, load_single_image Image_PATH default_target_size w1 = (w2, c2) ∧
    match c2 with
    | SysExit _ => False
    | Abrupt e => w = w2 ∧ c = Abrupt e
    | Normal img =>
      ∃ w3 c3, tflite_fp32_predict tflite_fp32 img w2 = (w3, c3) ∧
      match c3 with
      | SysExit _ => False
      | Abrupt e => w = w3 ∧ c = Abrupt e
      | Normal (pred, confidence) =>
          match classes !! pred with
          | Some name =>
              w = put_stdout
                    (stdout w3 +:+
                     report Image_PATH name
                       (format_2f (np.scalar_mul np_promotion confidence 100))) w3 ∧
              c = Normal ()
          | None =>
              w = put_stdout (stdout w3 +:+ header Image_PATH) w3 ∧
              c = Abrupt IndexError_list
          end
      end
    end
  end.
Proof.
  intros Hrun. unfold classify in Hrun.
  destruct (load_interpreter TFLITE_FP32_PATH w0) as [w1 c1] eqn:H1.
  exists w1, c1. split; [done |].
  destruct c1 as [h | e | n].
  2:{ rewrite (bind_abrupt _ _ _ _ _ H1) in Hrun. by injection Hrun as <- <-. }
  2:{ by destruct (proj2 (proj2 (quiet_load_interpreter _ _ _ _ H1)) n). }
  rewrite (bind_normal _ _ _ _ _ H1) in Hrun.
  destruct (load_single_image Image_PATH default_target_size w1) as [w2 c2] eqn:H2.
  exists w2, c2. split; [done |].
  destruct c2 as [t | e | n].
  2:{ rewrite (bind_abrupt _ _ _ _ _ H2) in Hrun. by injection Hrun as <- <-. }
  2:{ by destruct (proj2 (proj2 (quiet_load_single_image _ _ _ _ _ H2)) n). }
  rewrite (bind_normal _ _ _ _ _ H2) in Hrun.
  destruct (tflite_fp32_predict h t w2) as [w3 c3] eqn:H3.
  exists w3, c3. split; [done |].
  destruct c3 as [[pred confidence] | e | n].
  2:{ rewrite (bind_abrupt _ _ _ _ _ H3) in Hrun. by injection Hrun as <- <-. }
  2:{ by destruct (proj2 (proj2 (quiet_predict _ _ _ _ _ H3)) n). }
  rewrite (bind_normal _ _ _ _ _ H3) in Hrun. cbv beta iota in Hrun.
  rewrite print_header in Hrun. unfold getitem in Hrun.
  destruct (classes !! pred) as [name|] eqn:Hname.
  - simpl lift in Hrun. rewrite ret_bind, print_bind in Hrun.
    unfold print in Hrun.
    rewrite !stdout_put_stdout, !put_stdout_put_stdout in Hrun.
    injection Hrun as <- <-. split; [| done]. f_equal.
    rewrite report_header. by rewrite !string_app_assoc.
  - by injection Hrun as <- <-.
Qed.

End Paths.

(** ** Reading a result backwards *)

Section Inversion.
Context `{RT : Runtime}.

Lemma lift_raise_bind {A B} (e : exn) (k : A → Py B) (w : World) :
  (lift (Raise e) ≫= k) w = (w, Abrupt e).
Proof. done. Qed.

Lemma get_missing {A} (f : Interpreter → A) h (w : World) :
  heap w !! h = None → get h f w = (w, Abrupt (Exn "ReferenceError" "no such object")).
Proof. unfold get. by intros ->. Qed.

(** A pair returned by [tflite_fp32_predict] comes from a forward pass
    that went through. *)
Lemma predict_normal_inv (w w' : World) (interpreter : handle) (image : array4)
    (pred : nat) (confidence : float) :
  tflite_fp32_predict interpreter image w = (w', Normal (pred, confidence)) →
  ∃ o o1 o2 d_in d_out scores rest,
    heap w !! interpreter = Some o ∧
    tflite_get_input_details o !! 0%nat = Some d_in ∧
    tflite_get_output_details o !! 0%nat = Some d_out ∧
    tflite_set_tensor o (index d_in) image = Ok o1 ∧
    tflite_invoke o1 = Ok o2 ∧
    tflite_get_tensor o2 (index d_out) = Ok (scores :: rest) ∧
    np.argmax scores = Ok pred ∧
    np.max scores = Ok confidence ∧
    w' = set_heap (<[interpreter:=o2]> (heap w)) w.
Proof.
  intros Hrun. unfold tflite_fp32_predict in Hrun.
  destruct (heap w !! interpreter) as [o|] eqn:Hheap.
  2:{ by rewrite (bind_abrupt _ _ _ _ _ (get_missing _ _ _ Hheap)) in Hrun. }
  assert (Hlt : (interpreter < length (heap w))%nat) by eauto using lookup_lt_Some.
  rewrite !(bind_normal _ _ _ _ _ (get_normal _ _ _ _ Hheap)) in Hrun.
  unfold getitem in Hrun.
  destruct (tflite_get_input_details o !! 0%nat) as [d_in|] eqn:Hin;
    [| by rewrite lift_raise_bind in Hrun].
  simpl lift in Hrun. rewrite ret_bind in Hrun.
  destruct (tflite_set_tensor o (index d_in) image) as [o1|e] eqn:Hset.
  2:{ by rewrite (bind_abrupt _ _ _ _ _ (update_abrupt _ _ _ _ _ Hheap Hset)) in Hrun. }
  rewrite (bind_normal _ _ _ _ _ (update_normal _ _ _ _ _ Hheap Hset)) in Hrun.
  assert (H1 : heap (set_heap (<[interpreter:=o1]> (heap w)) w) !! interpreter = Some o1)
    by (by apply list_lookup_insert_eq).
  destruct (tflite_invoke o1) as [o2|e] eqn:Hinvoke.
  2:{ by rewrite (bind_abrupt _ _ _ _ _ (update_abrupt _ _ _ _ _ H1 Hinvoke)) in Hrun. }
  rewrite (bind_normal _ _ _ _ _ (update_normal _ _ _ _ _ H1 Hinvoke)) in Hrun.
  rewrite heap_set_heap, set_heap_set_heap, list_insert_insert_eq in Hrun.
  assert (H2 : heap (set_heap (<[interpreter:=o2]> (heap w)) w) !! interpreter = Some o2)
    by (by apply list_lookup_insert_eq).
  destruct (tflite_get_output_details o !! 0%nat) as [d_out|] eqn:Hout;
    [| by rewrite lift_raise_bind in Hrun].
  simpl lift in Hrun. rewrite ret_bind in Hrun.
  rewrite (bind_normal _ _ _ _ _ (get_normal _ _ _ _ H2)) in Hrun. unfold id in Hrun.
  destruct (tflite_get_tensor o2 (index d_out)) as [output|e] eqn:Hget;
    [| by rewrite lift_raise_bind in Hrun].
  simpl lift in Hrun. rewrite ret_bind in Hrun.
  destruct output as [|scores rest]; [done |].
  unfold np.getitem in Hrun. simpl lookup in Hrun. simpl lift in Hrun.
  rewrite ret_bind in Hrun.
  destruct (np.argmax scores) as [pred'|e] eqn:Harg;
    [| by rewrite lift_raise_bind in Hrun].
  simpl lift in Hrun. rewrite !ret_bind in Hrun.
  destruct (np.max scores) as [confidence'|e] eqn:Hmax;
    [| by rewrite lift_raise_bind in Hrun].
  simpl lift in Hrun. rewrite ret_bind in Hrun.
  injection Hrun as <- <- <-.
  by exists o, o1, o2, d_in, d_out, scores, rest.
Qed.

Lemma load_interpreter_normal_inv (w w' : World) (model_path : string) (h : handle) :
  load_interpreter model_path w = (w', Normal h) →
  ∃ content o0 o,
    fs w model_path = Some (File content) ∧
    tflite_Interpreter content = Ok o0 ∧
    tflite_allocate_tensors o0 = Ok o ∧
    h = length (heap w) ∧
    w' = set_heap (heap w ++ [o]) (log (Open model_path) w).
Proof.
  unfold load_interpreter, open_model, new, update, mbind, Py_bind.
  destruct (fs w model_path) as [[content|]|] eqn:Hfile; [| done | done].
  destruct (tflite_Interpreter content) as [o0|e] eqn:Hload; simpl; [| done].
  rewrite list_lookup_middle by done.
  destruct (tflite_allocate_tensors o0) as [o|e] eqn:Halloc; simpl; [| done].
  intros [= <- <-]. exists content, o0, o.
  split_and!; [done | done | done | done |].
  by rewrite insert_app_r_alt, Nat.sub_diag by done.
Qed.

Lemma load_interpreter_effects (w w' : World) (model_path : string) c :
  load_interpreter model_path w = (w', c) →
  stdout w' = stdout w ∧ trace w' = trace w ++ [Open model_path].
Proof.
  unfold load_interpreter, open_model, new, update, mbind, Py_bind.
  destruct (fs w model_path) as [[content|]|]; [| by intros [= <- <-] ..].
  destruct (tflite_Interpreter content) as [o0|e]; simpl; [| by intros [= <- <-]].
  rewrite list_lookup_middle by done.
  by destruct (tflite_allocate_tensors o0) as [o|e]; simpl; intros [= <- <-].
Qed.

Lemma load_single_image_effects (w w' : World) (img_path : string) size c :
  load_single_image img_path size w = (w', c) → w' = log (Open img_path) w.
Proof.
  unfold load_single_image, load_img, read_file, mbind, Py_bind.
  destruct (fs w img_path) as [[content|]|]; [| by intros [= <- <-] ..].
  by destruct (pil_open content) as [img|e]; simpl; intros [= <- <-].
Qed.

Lemma load_single_image_normal_inv (w w' : World) (img_path : string) size t :
  load_single_image img_path size w = (w', Normal t) →
  ∃ content img,
    fs w img_path = Some (File content) ∧
    pil_open content = Ok img ∧
    t = tensor_of img size.
Proof.
  unfold load_single_image, load_img, read_file, mbind, Py_bind.
  destruct (fs w img_path) as [[content|]|] eqn:Hfile; [| done | done].
  destruct (pil_open content) as [img|e] eqn:Hdecode; simpl; [| done].
  intros [= <- <-]. by exists content, img.
Qed.

End Inversion.

Section Returns.
Context `{RT : Runtime}.

(** X9. Whatever [tflite_fp32_predict] returns was read off the
    interpreter: the input was set to the image, the forward pass ran,
    and the pair is the position of the first greatest score and that
    score, in the first row of the output tensor. The interpreter after
    the forward pass is the only change to the world. *)
Theorem tflite_fp32_predict_returns (w w' : World) (interpreter : handle)
    (image : array4) (pred : nat) (confidence : float) :
  tflite_fp32_predict interpreter image w = (w', Normal (pred, confidence)) →
  ∃ o o1 o2 d_in d_out scores rest,
    heap w !! interpreter = Some o ∧
    tflite_get_input_details o !! 0%nat = Some d_in ∧
    tflite_get_output_details o !! 0%nat = Some d_out ∧
    tflite_set_tensor o (index d_in) image = Ok o1 ∧
    tflite_invoke o1 = Ok o2 ∧
    tflite_get_tensor o2 (index d_out) = Ok (scores :: rest) ∧
    first_max scores pred confidence ∧
    w' = set_heap (<[interpreter:=o2]> (heap w)) w.
Proof.
  intros Hrun.
  destruct (predict_normal_inv _ _ _ _ _ _ Hrun)
    as (o & o1 & o2 & d_in & d_out & scores & rest &
        Hheap & Hin & Hout & Hset & Hinvoke & Hget & Harg & Hmax & Hw).
  exists o, o1, o2, d_in, d_out, scores, rest.
  split_and!; [done .. | | done].
  destruct (argmax_max_first_max scores) as (i & v & Hi & Hv & Hfm).
  { intros ->. discriminate Harg. }
  congruence.
Qed.

End Returns.

(** ** Every run, stage by stage *)

Lemma argmax_first_nan (scores : array1) (i : nat) :
  scores !! i = Some NaN →
  (∀ j x, (j < i)%nat → scores !! j = Some x → isnan x = false) →
  np.argmax scores = Ok i ∧ np.max scores = Ok NaN.
Proof.
  intros Hi Hbefore.
  destruct (argmax_max_first_max scores) as (i' & v & Harg & Hmax & Hat & Hub & Hfirst).
  { by intros ->. }
  assert (v = NaN) as ->.
  { assert (Hle : np_le NaN v = true) by (apply Hub, list_elem_of_lookup; eauto).
    by destruct v as [|[|]|k|]. }
  assert (Hle : (i' ≤ i)%nat) by (by apply (Hfirst i NaN)).
  destruct (decide (i' = i)) as [-> | Hne]; [done |].
  assert (Hnan : isnan NaN = false) by (apply (Hbefore i'); [lia | done]).
  done.
Qed.

Section Runs.
Context `{RT : Runtime}.
Variables (files : string → option node) (args : Namespace).

(** The valid runs, whatever the index the model predicts. *)
Lemma run_inference_label (scores : array1) (pred : nat) (confidence : float) :
  inference files args scores →
  np.argmax scores = Ok pred →
  np.max scores = Ok confidence →
  run files args =
    match classes !! pred with
    | Some name =>
        {| out := report (image args) name
                    (format_2f (np.scalar_mul np_promotion confidence 100));
           err := "";
           status := 0;
           calls := [Stat (model args); Stat (image args);
                     Open (model args); Open (image args)] |}
    | None =>
        {| out := header (image args);
           err := "Error: list index out of range" +:+ nl;
           status := 1;
           calls := [Stat (model args); Stat (image args);
                     Open (model args); Open (image args)] |}
    end.
Proof.
  intros [] Harg Hmax.
  assert (Hne : scores ≠ []) by (by intros ->).
  set (w1 := set_heap [o] (log (Open (model args)) (checked files args))).
  set (w2 := log (Open (image args)) w1).
  destruct (predict_first_max w2 0%nat (tensor_of img default_target_size)
              o o1 o2 d_in d_out scores rest)
    as (pred' & confidence' & Hpredict & Harg' & Hmax' & _); try done.
  rewrite Harg in Harg'. rewrite Hmax in Hmax'.
  injection Harg' as <-. injection Hmax' as <-.
  destruct (classify (model args) (image args) (checked files args))
    as [w c] eqn:Hrun.
  rewrite (run_checked files args) with (w := w) (c := c);
    [| by rewrite Hmodel | by rewrite Himage | done].
  destruct (classify_paths _ _ _ _ _ Hrun) as (w1' & c1 & H1 & Hrest).
  rewrite (load_interpreter_normal _ _ model_content o0 o) in H1 by done.
  injection H1 as <- <-.
  destruct Hrest as (w2' & c2 & H2 & Hrest).
  rewrite (load_single_image_normal _ _ _ image_content img) in H2 by done.
  injection H2 as <- <-.
  destruct Hrest as (w3' & c3 & H3 & Hrest).
  change (tflite_fp32_predict 0%nat (tensor_of img default_target_size) w2 = (w3', c3)) in H3.
  rewrite Hpredict in H3. injection H3 as <- <-.
  by destruct (classes !! pred) as [name|]; destruct Hrest as [-> ->].
Qed.

(** Every run is one of six. *)
Lemma run_stages :
  (files (model args) = None ∧
   run files args =
     {| out := "Model not found: " +:+ model args +:+ nl; err := "";
        status := 1; calls := [Stat (model args)] |}) ∨
  (files (image args) = None ∧
   run files args =
     {| out := "Image not found: " +:+ image args +:+ nl; err := "";
        status := 1; calls := [Stat (model args); Stat (image args)] |}) ∨
  (∃ e,
   run files args =
     {| out := ""; err := "Error: " +:+ exn_msg e +:+ nl; status := 1;
        calls := [Stat (model args); Stat (image args); Open (model args)] |}) ∨
  (∃ e,
   run files args =
     {| out := ""; err := "Error: " +:+ exn_msg e +:+ nl; status := 1;
        calls := [Stat (model args); Stat (image args);
                  Open (model args); Open (image args)] |}) ∨
  (∃ scores pred,
   inference files args scores ∧ np.argmax scores = Ok pred ∧
   classes !! pred = None ∧
   run files args =
     {| out := header (image args);
        err := "Error: list index out of range" +:+ nl; status := 1;
        calls := [Stat (model args); Stat (image args);
                  Open (model args); Open (image args)] |}) ∨
  (∃ scores pred confidence name,
   inference files args scores ∧ np.argmax scores = Ok pred ∧
   np.max scores = Ok confidence ∧ classes !! pred = Some name ∧
   run files args =
     {| out := report (image args) name
                 (format_2f (np.scalar_mul np_promotion confidence 100));
        err := ""; status := 0;
        calls := [Stat (model args); Stat (image args);
                  Open (model args); Open (image args)] |}).
Proof.
  destruct (files (model args)) as [m|] eqn:Hmodel;
    [| left; split; [done |]; by apply run_model_missing].
  right.
  destruct (files (image args)) as [i|] eqn:Himage;
    [| left; split; [done |]; apply run_image_missing; by rewrite ?Hmodel].
  right.
  destruct (classify (model args) (image args) (checked files args))
    as [w c] eqn:Hrun.
  assert (Hout : run files args =
                 match c with
                 | Normal _ =>
                     {| out := stdout w; err := ""; status := 0; calls := trace w |}
                 | Abrupt e =>
                     {| out := stdout w; err := "Error: " +:+ exn_msg e +:+ nl;
                        status := 1; calls := trace w |}
                 | SysExit n =>
                     {| out := stdout w; err := ""; status := n; calls := trace w |}
                 end).
  { apply run_checked; by rewrite ?Hmodel, ?Himage. }
  destruct (classify_paths _ _ _ _ _ Hrun) as (w1 & c1 & H1 & Hrest).
  destruct (load_interpreter_effects _ _ _ _ H1) as [Hout1 Htrace1].
  destruct c1 as [h | e | n]; [| | done].
  2:{ destruct Hrest as [-> ->]. left. exists e.
      by rewrite Hout, Hout1, Htrace1. }
  right.
  destruct Hrest as (w2 & c2 & H2 & Hrest).
  pose proof (load_single_image_effects _ _ _ _ _ H2) as Hw2.
  destruct c2 as [t | e | n]; [| | done].
  2:{ destruct Hrest as [-> ->]. left. exists e.
      rewrite Hout, Hw2. simpl. by rewrite Hout1, Htrace1. }
  destruct Hrest as (w3 & c3 & H3 & Hrest).
  destruct (confined_predict _ _ _ _ _ H3) as (_ & Hout3 & _ & Htrace3 & _).
  assert (Hout3' : stdout w3 = "").
  { rewrite Hout3, Hw2. simpl. by rewrite Hout1. }
  assert (Htrace3' : trace w3 = [Stat (model args); Stat (image args);
                                 Open (model args); Open (image args)]).
  { rewrite Htrace3, Hw2. simpl. by rewrite Htrace1. }
  destruct c3 as [[pred confidence] | e | n]; [| | done].
  2:{ destruct Hrest as [-> ->]. left. exists e.
      by rewrite Hout, Hout3', Htrace3'. }
  right.
  destruct (load_interpreter_normal_inv _ _ _ _ H1)
    as (model_content & o0 & o & Hfile & Hload & Halloc & -> & ->).
  destruct (load_single_image_normal_inv _ _ _ _ _ H2)
    as (image_content & img & Hfile' & Hdecode & ->).
  destruct (predict_normal_inv _ _ _ _ _ _ H3)
    as (o' & o1 & o2 & d_in & d_out & scores & rest &
        Hheap & Hin & Hout' & Hset & Hinvoke & Hget & Harg & Hmax & _).
  rewrite Hw2 in Hheap. injection Hheap as <-.
  assert (Hvalid : inference files args scores).
  { by apply (inference_intro files args scores model_content image_content
                o0 o o1 o2 img d_in d_out rest). }
  pose proof (run_inference_label scores pred confidence Hvalid Harg Hmax) as Hlabel.
  destruct (classes !! pred) as [name|] eqn:Hname.
  - right. by exists scores, pred, confidence, name.
  - left. by exists scores, pred.
Qed.

(** X10. An exit status of 0 tells the whole story: the model loaded,
    the image decoded, the forward pass went through, the predicted
    index is a position of the label table, and the complete report,
    with the label at the first greatest score, is all the run
    printed. *)
Theorem exit_status_zero :
  status (run files args) = 0 →
  ∃ scores pred confidence name,
    inference files args scores ∧
    first_max scores pred confidence ∧
    classes !! pred = Some name ∧
    run files args =
      {| out := report (image args) name
                  (format_2f (np.scalar_mul np_promotion confidence 100));
         err := "";
         status := 0;
         calls := [Stat (model args); Stat (image args);
                   Open (model args); Open (image args)] |}.
Proof.
  intros Hstatus.
  destruct run_stages
    as [[_ Hrun] | [[_ Hrun] | [[e Hrun] | [[e Hrun] |
        [(scores & pred & _ & _ & _ & Hrun) |
         (scores & pred & confidence & name & Hvalid & Harg & Hmax & Hname & Hrun)]]]]];
    [by rewrite Hrun in Hstatus .. |].
  exists scores, pred, confidence, name.
  split_and!; [done | | done | done].
  destruct (argmax_max_first_max scores) as (i & v & Hi & Hv & Hfm).
  { intros ->. discriminate Harg. }
  congruence.
Qed.

(** X11. The file-system calls of a run are a non-empty beginning of
    one fixed sequence: the existence check of the model path, that of
    the image path, the opening of the model, the opening of the image.
    No other path is touched and no file is opened twice. *)
Theorem run_file_accesses :
  calls (run files args) ≠ [] ∧
  calls (run files args) `prefix_of`
    [Stat (model args); Stat (image args); Open (model args); Open (image args)].
Proof.
  destruct run_stages
    as [[_ Hrun] | [[_ Hrun] | [[e Hrun] | [[e Hrun] |
        [(scores & pred & _ & _ & _ & Hrun) |
         (scores & pred & confidence & name & _ & _ & _ & _ & Hrun)]]]]];
    rewrite Hrun; simpl; (split; [done |]).
  - by exists [Stat (image args); Open (model args); Open (image args)].
  - by exists [Open (model args); Open (image args)].
  - by exists [Open (image args)].
  - by exists [].
  - by exists [].
  - by exists [].
Qed.

(** X12. What a run can leave on standard output: one of the two
    messages of the gates, nothing, the complete report, or, in one case
    only, the first five lines of the report: the forward pass went
    through and the predicted index is past the end of the label table,
    so that the run fails with the [IndexError] of the lookup after the
    header is printed. *)
Theorem run_output_cases :
  out (run files args) = "Model not found: " +:+ model args +:+ nl ∨
  out (run files args) = "Image not found: " +:+ image args +:+ nl ∨
  (out (run files args) = "" ∧ status (run files args) = 1 ∧
   err (run files args) ≠ "") ∨
  (out (run files args) = header (image args) ∧
   status (run files args) = 1 ∧
   err (run files args) = "Error: list index out of range" +:+ nl ∧
   ∃ scores pred, inference files args scores ∧ np.argmax scores = Ok pred ∧
                  (5 ≤ pred)%nat) ∨
  (status (run files args) = 0 ∧ err (run files args) = "" ∧
   ∃ name percent, name ∈ classes ∧
     out (run files args) = report (image args) name percent).
Proof.
  destruct run_stages
    as [[_ Hrun] | [[_ Hrun] | [[e Hrun] | [[e Hrun] |
        [(scores & pred & Hvalid & Harg & Hname & Hrun) |
         (scores & pred & confidence & name & _ & _ & _ & Hname & Hrun)]]]]];
    rewrite Hrun; simpl.
  - by left.
  - right; by left.
  - do 2 right; left. done.
  - do 2 right; left. done.
  - do 3 right; left. split_and!; [done .. |].
    exists scores, pred. split_and!; [done | done |].
    apply lookup_ge_None in Hname. exact Hname.
  - do 4 right. split_and!; [done | done |].
    eexists name, _. split; [| done].
    apply list_elem_of_lookup. eauto.
Qed.

(** X13. A model with more classes than the table has labels: when the
    first greatest score sits at position 5 or later, the header is on
    standard output already, the lookup raises, and the run ends with
    the message of the [IndexError] on standard error and the status 1.
    No prediction line is printed. *)
Theorem unknown_class_index (scores : array1) (pred : nat) :
  inference files args scores →
  np.argmax scores = Ok pred →
  (5 ≤ pred)%nat →
  run files args =
    {| out := header (image args);
       err := "Error: list index out of range" +:+ nl;
       status := 1;
       calls := [Stat (model args); Stat (image args);
                 Open (model args); Open (image args)] |}.
Proof.
  intros Hvalid Harg Hpred.
  destruct (argmax_max_first_max scores) as (i & confidence & _ & Hmax & _).
  { intros ->. discriminate Harg. }
  rewrite (run_inference_label scores pred confidence) by done.
  by rewrite (proj2 (lookup_ge_None classes pred)).
Qed.

(** X14. A score that is not a number wins: the run reports the class
    of the first NaN with a confidence of "nan%" and exits with the
    status 0. *)
Theorem nan_score_reported (scores : array1) (i : nat) (name : string) :
  inference files args scores →
  scores !! i = Some NaN →
  (∀ j x, (j < i)%nat → scores !! j = Some x → isnan x = false) →
  classes !! i = Some name →
  run files args =
    {| out := report (image args) name "nan";
       err := "";
       status := 0;
       calls := [Stat (model args); Stat (image args);
                 Open (model args); Open (image args)] |}.
Proof.
  intros Hvalid Hi Hbefore Hname.
  destruct (argmax_first_nan scores i Hi Hbefore) as [Harg Hmax].
  rewrite (run_inference_label scores i NaN) by done.
  rewrite Hname. by destruct np_promotion.
Qed.


End Runs.

Section Rejected.
Context `{RT : Runtime}.

(** X16. A model file that the runtime does not take, at construction
    or at [allocate_tensors]: the run ends with the message of the
    runtime on standard error and the status 1, nothing is printed, and
    the image, though it exists, is never opened. *)
Theorem model_rejected (files : string → option node) (args : Namespace)
    (content : list byte) (e : exn) :
  files (model args) = Some (File content) →
  is_Some (files (image args)) →
  tflite_Interpreter content = Raise e ∨
    (∃ o0, tflite_Interpreter content = Ok o0 ∧ tflite_allocate_tensors o0 = Raise e) →
  run files args =
    {| out := "";
       err := "Error: " +:+ exn_msg e +:+ nl;
       status := 1;
       calls := [Stat (model args); Stat (image args); Open (model args)] |}.
Proof.
  intros Hmodel Himage Hbad.
  destruct (classify (model args) (image args) (checked files args))
    as [w c] eqn:Hrun.
  rewrite (run_checked files args) with (w := w) (c := c);
    [| by rewrite Hmodel | done | done].
  destruct (classify_paths _ _ _ _ _ Hrun) as (w1 & c1 & H1 & Hrest).
  unfold load_interpreter, open_model, new, update, mbind, Py_bind in H1.
  simpl fs in H1. rewrite Hmodel in H1.
  destruct Hbad as [Hload | (o0 & Hload & Halloc)]; rewrite Hload in H1.
  - injection H1 as <- <-. by destruct Hrest as [-> ->].
  - simpl in H1. rewrite Halloc in H1.
    injection H1 as <- <-. by destruct Hrest as [-> ->].
Qed.

End Rejected.

(** ** The sample runs *)

Lemma Edge_six_valid p :
  inference (RT := Edge.runtime p) Edge.files
    (Demo.args "six.tflite" "grey.png") Edge.six.
Proof.
  eapply (inference_intro (RT := Edge.runtime p) _ _ _
            [x00; x00; x00; x00; x00; x00; x01] ([x02; x02] ++ replicate 12 x80)
            _ _ _ _ Demo.grey); reflexivity.
Qed.

Lemma Edge_nans_valid p :
  inference (RT := Edge.runtime p) Edge.files
    (Demo.args "nan.tflite" "grey.png") Edge.nans.
Proof.
  eapply (inference_intro (RT := Edge.runtime p) _ _ _
            [x00; x01; xff; x02; xff; x00] ([x02; x02] ++ replicate 12 x80)
            _ _ _ _ Demo.grey); reflexivity.
Qed.

Lemma load_interpreter_outcome_witness :
  let w := boot (RT := Demo.runtime legacy) Demo.files in
  let w' := set_heap [Demo.rice : @Interpreter (Demo.runtime legacy)]
              (log (Open "rice.tflite") w) in
  load_interpreter "rice.tflite" w = (w', Normal 0%nat) ∧
  fs w' = fs w ∧ stdout w' = stdout w ∧ stderr w' = stderr w ∧
  trace w' = trace w ++ [Open "rice.tflite"].
Proof.
  intros w w'.
  assert (Hrun : load_interpreter "rice.tflite" w = (w', Normal 0%nat))
    by reflexivity.
  split; [exact Hrun |].
  destruct (load_interpreter_outcome (RT := Demo.runtime legacy)
              w w' "rice.tflite" (Normal 0%nat) Hrun)
    as (Hfs & Hout & Herr & Htrace & _).
  repeat split; assumption.
Defined.


Lemma tflite_fp32_predict_confined_witness :
  let w := Demo.loaded legacy in
  ∃ w' c, tflite_fp32_predict 0%nat Demo.black w = (w', c) ∧
          stdout w' = stdout w ∧ trace w' = trace w ∧
          length (heap w') = length (heap w).
Proof.
  intros w.
  destruct (tflite_fp32_predict 0%nat Demo.black w) as [w' c] eqn:Hrun.
  exists w', c. split; [reflexivity |].
  destruct (tflite_fp32_predict_confined (RT := Demo.runtime legacy)
              w w' 0%nat Demo.black c Hrun)
    as (_ & Hout & _ & Htrace & Hlen & _).
  repeat split; assumption.
Defined.

(** A tensor of the shape (1, 1, 1, 1). *)
Lemma tflite_fp32_predict_rejected_witness :
  tflite_fp32_predict 0%nat Edge.flat (Demo.loaded legacy)
    = (Demo.loaded legacy,
       Abrupt (Exn "ValueError" "Cannot set tensor: Dimension mismatch.")).
Proof.
  apply (tflite_fp32_predict_rejected (RT := Demo.runtime legacy)
           (Demo.loaded legacy) 0%nat Edge.flat Demo.rice
           {| index := 0; shape := [1; 128; 128; 3]%nat |});
    reflexivity.
Defined.

(** A model without classes. *)
Lemma tflite_fp32_predict_empty_output_witness :
  ∃ w', tflite_fp32_predict 0%nat Demo.black (Edge.loaded legacy)
          = (w', Abrupt (Exn "ValueError" "attempt to get argmax of an empty sequence")).
Proof.
  eexists.
  eapply (tflite_fp32_predict_empty_output (RT := Edge.runtime legacy)
            (Edge.loaded legacy) 0%nat Demo.black Edge.bare _ _ _ _ [[]]);
    [reflexivity .. | right; reflexivity].
Defined.

Lemma tflite_fp32_predict_returns_witness :
  ∃ w' o2,
    tflite_fp32_predict 0%nat Demo.black (Demo.loaded legacy)
      = (w', Normal (2%nat, Fin (7 * 2 ^ 1071))) ∧
    first_max (Demo.scores_of Demo.rice) 2 (Fin (7 * 2 ^ 1071)) ∧
    w' = set_heap (<[0%nat:=o2]> (heap (Demo.loaded legacy))) (Demo.loaded legacy).
Proof.
  eexists.
  assert (Hrun : tflite_fp32_predict 0%nat Demo.black (Demo.loaded legacy)
                 = (_, Normal (2%nat, Fin (7 * 2 ^ 1071)))) by reflexivity.
  destruct (tflite_fp32_predict_returns (RT := Demo.runtime legacy)
              _ _ 0%nat Demo.black 2%nat (Fin (7 * 2 ^ 1071)) Hrun)
    as (o & o1 & o2 & d_in & d_out & scores & rest &
        Hheap & Hin & Hout & Hset & Hinvoke & Hget & Hfm & Hw).
  exists o2. split; [exact Hrun |]. split; [| exact Hw].
  injection Hheap as <-. injection Hin as <-. injection Hout as <-.
  injection Hset as <-. injection Hinvoke as <-. injection Hget as <- _.
  exact Hfm.
Defined.

Lemma Edge_zeros_valid p :
  inference (RT := Edge.runtime p) Edge.files
    (Demo.args "zero.tflite" "grey.png") Edge.zeros.
Proof.
  eapply (inference_intro (RT := Edge.runtime p) _ _ _
            [x00; xfe; xfe; xfe; xfe; xfe] ([x02; x02] ++ replicate 12 x80)
            _ _ _ _ Demo.grey); reflexivity.
Qed.

(** A greatest score of -0.0 is reported as -0.00%, whichever way NumPy
    types the product. *)
Lemma negative_zero_report p :
  run (RT := Edge.runtime p) Edge.files (Demo.args "zero.tflite" "grey.png") =
    {| out := report "grey.png" "Karacadag" "-0.00";
       err := "";
       status := 0;
       calls := [Stat "zero.tflite"; Stat "grey.png";
                 Open "zero.tflite"; Open "grey.png"] |}.
Proof.
  rewrite (run_inference_label (RT := Edge.runtime p) Edge.files
             (Demo.args "zero.tflite" "grey.png") Edge.zeros 0%nat NegZero
             (Edge_zeros_valid p) eq_refl eq_refl).
  by destruct p.
Qed.

Lemma exit_status_zero_witness :
  status (run (RT := Edge.runtime nep50) Edge.files
            (Demo.args "zero.tflite" "grey.png")) = 0 ∧
  ∃ scores pred confidence name,
    inference (RT := Edge.runtime nep50) Edge.files
      (Demo.args "zero.tflite" "grey.png") scores ∧
    first_max scores pred confidence ∧
    classes !! pred = Some name ∧
    run (RT := Edge.runtime nep50) Edge.files (Demo.args "zero.tflite" "grey.png") =
      {| out := report "grey.png" name
                  (format_2f (np.scalar_mul nep50 confidence 100));
         err := "";
         status := 0;
         calls := [Stat "zero.tflite"; Stat "grey.png";
                   Open "zero.tflite"; Open "grey.png"] |}.
Proof.
  assert (Hstatus : status (run (RT := Edge.runtime nep50) Edge.files
                              (Demo.args "zero.tflite" "grey.png")) = 0).
  { rewrite (run_inference_label (RT := Edge.runtime nep50) Edge.files
               (Demo.args "zero.tflite" "grey.png") Edge.zeros 0%nat NegZero
               (Edge_zeros_valid nep50) eq_refl eq_refl).
    reflexivity. }
  split; [exact Hstatus |].
  exact (exit_status_zero (RT := Edge.runtime nep50) Edge.files
           (Demo.args "zero.tflite" "grey.png") Hstatus).
Defined.

Lemma unknown_class_index_witness :
  run (RT := Edge.runtime legacy) Edge.files (Demo.args "six.tflite" "grey.png") =
    {| out := header "grey.png";
       err := "Error: list index out of range" +:+ nl;
       status := 1;
       calls := [Stat "six.tflite"; Stat "grey.png";
                 Open "six.tflite"; Open "grey.png"] |}.
Proof.
  apply (unknown_class_index (RT := Edge.runtime legacy) Edge.files
           (Demo.args "six.tflite" "grey.png") Edge.six 5%nat).
  - apply Edge_six_valid.
  - reflexivity.
  - lia.
Defined.

Lemma nan_score_reported_witness :
  run (RT := Edge.runtime legacy) Edge.files (Demo.args "nan.tflite" "grey.png") =
    {| out := report "grey.png" "Ipsala" "nan";
       err := "";
       status := 0;
       calls := [Stat "nan.tflite"; Stat "grey.png";
                 Open "nan.tflite"; Open "grey.png"] |}.
Proof.
  apply (nan_score_reported (RT := Edge.runtime legacy) Edge.files
           (Demo.args "nan.tflite" "grey.png") Edge.nans 1%nat "Ipsala").
  - apply Edge_nans_valid.
  - reflexivity.
  - intros [|j] x Hj; [intros [= <-]; reflexivity | lia].
  - reflexivity.
Defined.


Lemma model_rejected_witness :
  run (RT := Demo.runtime legacy) Demo.files (Demo.args "empty.tflite" "grey.png") =
    {| out := "";
       err := "Error: Model provided has no identifier" +:+ nl;
       status := 1;
       calls := [Stat "empty.tflite"; Stat "grey.png"; Open "empty.tflite"] |}.
Proof.
  apply (model_rejected (RT := Demo.runtime legacy) Demo.files
           (Demo.args "empty.tflite" "grey.png") []
           (Exn "ValueError" "Model provided has no identifier")).
  - reflexivity.
  - simpl. eauto.
  - left. reflexivity.
Defined.
